(** * redis_py: the command handler of a Redis-compatible server

    A shallow embedding of [app/handler.py] (class [RedisCommandHandler]).
    Python objects become Rocq data, the handler's attributes become the
    fields of a [state] record that every method threads explicitly, and
    a Python exception becomes an [Exc] outcome that keeps the state
    reached so far.

    The modules the handler imports ([app.serialiser], [app.database],
    [app.connection_registry]) are modelled from the specification; each
    such definition says so in its comment. *)

From Stdlib Require Import ZArith QArith Lia List String Ascii Bool.
From Stdlib Require Import DecimalString DecimalN DecimalZ DecimalFacts.
From Stdlib Require Import DecimalPos Lqa.
From stdpp Require Import gmap strings list fin_maps.
Import ListNotations.

Local Open Scope string_scope.
Local Open Scope Z_scope.

(** ** Python strings and integers *)

Definition CRLF : string := String "013" (String "010" "").

(** [c.lower()] on one ASCII character. *)
Definition lower_ascii (c : ascii) : ascii :=
  let n := nat_of_ascii c in
  if (65 <=? n)%nat && (n <=? 90)%nat then ascii_of_nat (n + 32) else c.

(** [s.lower()] *)
Fixpoint lower (s : string) : string :=
  match s with
  | EmptyString => EmptyString
  | String c r => String (lower_ascii c) (lower r)
  end.

Definition is_upper (c : ascii) : bool :=
  let n := nat_of_ascii c in (65 <=? n)%nat && (n <=? 90)%nat.

Fixpoint has_upper (s : string) : bool :=
  match s with
  | EmptyString => false
  | String c r => is_upper c || has_upper r
  end.

(** [len(s)] *)
Definition len (s : string) : Z := Z.of_nat (String.length s).

(** [str(n)] for a Python [int]. *)
Definition str_of_int (z : Z) : string := NilZero.string_of_int (Z.to_int z).

(** [str(n)] for a non-negative integer. *)
Definition str_of_N (n : N) : string := NilZero.string_of_uint (N.to_uint n).

(** [int(s)] for the decimal literals without blanks or underscores: an
    optional sign followed by at least one digit.  [None] is Python's
    [ValueError]. *)
Definition int_of_str (s : string) : option Z :=
  match s with
  | String "+" r =>
      match NilZero.uint_of_string r with
      | Some d => Some (Z.of_N (N.of_uint d))
      | None => None
      end
  | _ =>
      match NilZero.int_of_string s with
      | Some d => Some (Z.of_int d)
      | None => None
      end
  end.

Definition N_of_str (s : string) : option N :=
  match NilZero.uint_of_string s with
  | Some d => Some (N.of_uint d)
  | None => None
  end.

(** [s[n:]] and [s[:n]] on strings. *)
Fixpoint sdrop (n : nat) (s : string) : string :=
  match n, s with
  | O, _ => s
  | S n', String _ r => sdrop n' r
  | S _, EmptyString => EmptyString
  end.

Fixpoint stake (n : nat) (s : string) : string :=
  match n, s with
  | S n', String c r => String c (stake n' r)
  | _, _ => EmptyString
  end.

(** [s.split(sep, 1)] for a one-character separator: the text before the
    first separator and the text after it. *)
Fixpoint split_at (sep : ascii) (s : string) : option (string * string) :=
  match s with
  | EmptyString => None
  | String c r =>
      if Ascii.eqb c sep then Some (EmptyString, r)
      else match split_at sep r with
           | Some (a, b) => Some (String c a, b)
           | None => None
           end
  end.

(** The text up to the first CRLF, and the text after it. *)
Fixpoint read_line (s : string) : option (string * string) :=
  match s with
  | EmptyString => None
  | String c r =>
      match r with
      | String c' r' =>
          if Ascii.eqb c "013" && Ascii.eqb c' "010" then Some (EmptyString, r')
          else match read_line r with
               | Some (a, b) => Some (String c a, b)
               | None => None
               end
      | EmptyString => None
      end
  end.

(** ** Python values that travel through the handler *)

(** A stream entry ID [(ms, seq)] and the fields of an entry. *)
Definition StreamId : Type := (N * N)%type.
Definition Fields : Type := list string.

(** What a command function returns as payload, and what the encoder
    receives: [None], a [str], an [int], a (nested) [list], a stream
    [dict], or a [RedisException] object carrying its message. *)
#[warnings="-register-all"]
Inductive pyval : Type :=
  | PNone
  | PStr (s : string)
  | PInt (z : Z)
  | PList (l : list pyval)
  | PDict (entries : list (StreamId * Fields))
  | PExc (msg : string).

Inductive RedisType : Type :=
  | SIMPLE_STRING | ERROR | INTEGER | BULK_STRING | ARRAY.

(** A Python list of strings. *)
Definition pstrs (l : list string) : list pyval := map PStr l.

(** ** The RESP codec ([app.serialiser]) *)

Module Codec.

(** Modelled from the spec: [RedisEncoder] of app/serialiser.py, which is
    not among the sources; section 4.1 and tests/test_serialiser.py fix
    its output. *)
Definition encode_simple_string (s : string) : string := "+" ++ s ++ CRLF.

(** Modelled from the spec: [encode_error] (section 4.1). *)
Definition encode_error (s : string) : string := "-" ++ s ++ CRLF.

(** Modelled from the spec: [encode_integer] (section 4.1). *)
Definition encode_integer (n : Z) : string := ":" ++ str_of_int n ++ CRLF.

(** Modelled from the spec: [encode_bulk_string]; [None] is the absent
    string (section 4.1). *)
Definition encode_bulk_string (s : option string) : string :=
  match s with
  | None => "$-1" ++ CRLF
  | Some s => "$" ++ str_of_int (len s) ++ CRLF ++ s ++ CRLF
  end.

(** Modelled from the spec: [encode_file], a bulk string without the
    trailing CRLF (section 4.1). *)
Definition encode_file (b : string) : string :=
  "$" ++ str_of_int (len b) ++ CRLF ++ b.

(** Modelled from the spec: [encode_array]; a nested list encodes as a
    nested array and a scalar element as a bulk string (the text of an
    integer or of an exception for those scalars).  The spec gives no
    encoding for a [dict] element: [None]. *)
Fixpoint encode_element (v : pyval) : option string :=
  match v with
  | PNone => Some (encode_bulk_string None)
  | PStr s => Some (encode_bulk_string (Some s))
  | PInt z => Some (encode_bulk_string (Some (str_of_int z)))
  | PExc m => Some (encode_bulk_string (Some m))
  | PDict _ => None
  | PList l =>
      match (fix go (l : list pyval) : option string :=
               match l with
               | [] => Some ""
               | x :: r =>
                   match encode_element x, go r with
                   | Some a, Some b => Some (a ++ b)
                   | _, _ => None
                   end
               end) l with
      | Some body => Some ("*" ++ str_of_int (Z.of_nat (List.length l)) ++ CRLF ++ body)
      | None => None
      end
  end.

Definition encode_array (xs : list pyval) : option string := encode_element (PList xs).

(** The array of bulk strings a client or the master sends. *)
Definition encode_command (argv : list string) : string :=
  "*" ++ str_of_int (Z.of_nat (List.length argv)) ++ CRLF ++
  fold_right (fun a body => encode_bulk_string (Some a) ++ body) "" argv.

(** Modelled from the spec: [RedisDecoder] of app/serialiser.py.  The
    fragment of RESP that clients and the master send is covered: a
    simple string, a bulk string, and an array of those.  Every other
    frame, a truncated frame and a length that disagrees with the body
    are a [ProtocolError], here [None]. *)
Inductive decoded : Type :=
  | DStr (s : string)
  | DList (l : list string).

(** Modelled from the spec: one string element of the decoder; returns
    it with the rest of the buffer. *)
Definition decode_string (buf : string) : option (string * string) :=
  match buf with
  | String "+" r => read_line r
  | String "$" r =>
      match read_line r with
      | Some (l, body) =>
          match N_of_str l with
          | Some n =>
              let n := N.to_nat n in
              if (n + 2 <=? String.length body)%nat
                 && String.eqb (stake 2 (sdrop n body)) CRLF
              then Some (stake n body, sdrop (n + 2) body)
              else None
          | None => None
          end
      | None => None
      end
  | _ => None
  end.

Fixpoint decode_elements (n : nat) (buf : string) : option (list string * string) :=
  match n with
  | O => Some ([], buf)
  | S n' =>
      match decode_string buf with
      | Some (x, rest) =>
          match decode_elements n' rest with
          | Some (xs, rest') => Some (x :: xs, rest')
          | None => None
          end
      | None => None
      end
  end.

(** Modelled from the spec: one top-level value of the decoder and the
    text that follows it. *)
Definition decode_value (buf : string) : option (decoded * string) :=
  match buf with
  | String "*" r =>
      match read_line r with
      | Some (l, body) =>
          match N_of_str l with
          | Some n =>
              match decode_elements (N.to_nat n) body with
              | Some (xs, rest) => Some (DList xs, rest)
              | None => None
              end
          | None => None
          end
      | None => None
      end
  | _ =>
      match decode_string buf with
      | Some (s, rest) => Some (DStr s, rest)
      | None => None
      end
  end.

(** Modelled from the spec: [RedisDecoder().decode(buf)] together with
    [bytes_processed] (section 4.1). *)
Definition decode (buf : string) : option (decoded * Z) :=
  match decode_value buf with
  | Some (v, rest) => Some (v, len buf - len rest)
  | None => None
  end.

(** Modelled from the spec: [multi_command_decoder]; top-level arrays
    decoded one after the other until the buffer is exhausted, each with
    its byte length (section 4.1). *)
Fixpoint multi_go (fuel : nat) (buf : string) : option (list (decoded * Z)) :=
  match buf with
  | EmptyString => Some []
  | _ =>
      match fuel with
      | O => None
      | S fuel' =>
          match decode_value buf with
          | Some (DList xs, rest) =>
              match multi_go fuel' rest with
              | Some cs => Some ((DList xs, len buf - len rest) :: cs)
              | None => None
              end
          | _ => None
          end
      end
  end.

Definition multi_command_decoder (buf : string) : option (list (decoded * Z)) :=
  multi_go (String.length buf) buf.

End Codec.

(** ** The keyspace ([app.database]) *)

Module Db.

(** Modelled from the spec: [Database] of app/database.py, which is not
    among the sources.  Section 3 gives the data model (a keyspace of
    strings and streams, an optional absolute expiry per key, stream IDs
    ordered lexicographically on [(ms, seq)]) and section 4.2 the
    operations.  The handler reads [db.data[key]] as the stream [dict]
    itself, so the expiry instants are kept in a map of their own. *)
Inductive Value : Type :=
  | VString (s : string)
  | VStream (entries : list (StreamId * Fields)).

Record Database : Type := mkDatabase {
  data : gmap string Value;
  expiry : gmap string Z        (* absolute instants, in microseconds *)
}.

Definition empty : Database := mkDatabase ∅ ∅.

Definition id_ltb (a b : StreamId) : bool :=
  (a.1 <? b.1)%N || ((a.1 =? b.1)%N && (a.2 <? b.2)%N).

Definition id_leb (a b : StreamId) : bool :=
  (a.1 <? b.1)%N || ((a.1 =? b.1)%N && (a.2 <=? b.2)%N).

(** ["{ms}-{seq}"] *)
Definition show_id (i : StreamId) : string :=
  str_of_N i.1 ++ "-" ++ str_of_N i.2.

Definition parse_id (s : string) : option StreamId :=
  match split_at "-" s with
  | Some (a, b) =>
      match N_of_str a, N_of_str b with
      | Some ms, Some sq => Some (ms, sq)
      | _, _ => None
      end
  | None => None
  end.

(** Modelled from the spec: [max(d.keys())] on the keys of a stream's
    [dict], which section 3 makes stream IDs in their total order; [None]
    where Python raises on an empty sequence. *)
Definition max_id (ids : list StreamId) : option StreamId :=
  match ids with
  | [] => None
  | x :: r => Some (fold_left (fun m y => if id_ltb m y then y else m) r x)
  end.

(** *** Strings with expiry *)

Definition expired (db : Database) (key : string) (now : Z) : bool :=
  match expiry db !! key with
  | Some t => t <? now
  | None => false
  end.

(** Modelled from the spec: [Database.set]; replaces any prior value,
    with an absolute expiry or none (section 4.2). *)
Definition set (db : Database) (key value : string) (expires_at : option Z) : Database :=
  mkDatabase (<[key := VString value]> (data db))
             (match expires_at with
              | Some t => <[key := t]> (expiry db)
              | None => delete key (expiry db)
              end).

(** Modelled from the spec: [Database.get]; a read of an expired entry
    observes absence and removes the entry (sections 3 and 4.2).  The
    handler tests the result for [str] and [dict], so a stream is
    returned as it is. *)
Definition get (db : Database) (key : string) (now : Z) : option Value * Database :=
  if expired db key now
  then (None, mkDatabase (delete key (data db)) (delete key (expiry db)))
  else (data db !! key, db).

(** Modelled from the spec: iterating the database gives the keys that
    have not expired (section 4.2, [keys]). *)
Definition keys (db : Database) (now : Z) : list string :=
  List.filter (fun k => negb (expired db k now)) (map fst (map_to_list (data db))).

(** *** Streams *)

Inductive db_error : Type :=
  | SmallTop        (* RedisDBException, module STREAM, code small-top *)
  | SmallFirst      (* RedisDBException, module STREAM, code small-first *)
  | BadId           (* the ID text does not parse *)
  | WrongType.      (* the key holds a string *)

Inductive id_spec : Type :=
  | IdAuto
  | IdPartial (ms : N)
  | IdExplicit (ms sq : N).

Definition parse_id_spec (s : string) : option id_spec :=
  if String.eqb s "*" then Some IdAuto
  else match split_at "-" s with
       | Some (a, b) =>
           match N_of_str a with
           | Some ms =>
               if String.eqb b "*" then Some (IdPartial ms)
               else match N_of_str b with
                    | Some sq => Some (IdExplicit ms sq)
                    | None => None
                    end
           | None => None
           end
       | None => None
       end.

(** The current top of a stream: its last entry; [0-0] before any. *)
Definition top_of (entries : list (StreamId * Fields)) : StreamId :=
  match List.last (map Some entries) None with
  | Some (i, _) => i
  | None => (0, 0)%N
  end.

Definition resolve_id (spec : id_spec) (top : StreamId) (now_ms : N) : StreamId :=
  match spec with
  | IdAuto =>
      if (top.1 <? now_ms)%N then (now_ms, 0%N) else (top.1, (top.2 + 1)%N)
  | IdPartial ms =>
      let sq := if (top.1 =? ms)%N then (top.2 + 1)%N else 0%N in
      if (ms =? 0)%N && (sq =? 0)%N then (0, 1)%N else (ms, sq)
  | IdExplicit ms sq => (ms, sq)
  end.

(** Modelled from the spec: [Database.add_stream] with the ID resolution
    and the two failures of section 4.2. *)
Definition add_stream (db : Database) (key id : string) (fields : Fields)
    (now_ms : N) : db_error + (string * Database) :=
  match parse_id_spec id with
  | None => inl BadId
  | Some spec =>
      match data db !! key with
      | Some (VString _) => inl WrongType
      | o =>
          let entries := match o with Some (VStream es) => es | _ => [] end in
          let new := resolve_id spec (top_of entries) now_ms in
          if id_leb new (0, 0)%N then inl SmallFirst
          else if negb (Nat.eqb (List.length entries) 0) && id_leb new (top_of entries)
          then inl SmallTop
          else inr (show_id new,
                    mkDatabase (<[key := VStream (entries ++ [(new, fields)])]> (data db))
                               (expiry db))
      end
  end.

Definition u64_max : N := 18446744073709551615%N.

(** A range boundary: inclusive, or exclusive with a leading paren. *)
Inductive bound : Type :=
  | Incl (i : StreamId)
  | Excl (i : StreamId).

(** ["ms-seq"], or a bare ["n"] completed with [dflt]. *)
Definition parse_point (s : string) (dflt : N) : option StreamId :=
  match parse_id s with
  | Some i => Some i
  | None =>
      match N_of_str s with
      | Some n => Some (n, dflt)
      | None => None
      end
  end.

Definition parse_bound (s : string) (dflt : N) : option bound :=
  match s with
  | String "(" r =>
      match parse_point r dflt with
      | Some i => Some (Excl i)
      | None => None
      end
  | _ =>
      match parse_point s dflt with
      | Some i => Some (Incl i)
      | None => None
      end
  end.

Definition parse_start (s : string) : option bound :=
  if String.eqb s "-" then Some (Incl (0, 0)%N) else parse_bound s 0%N.

Definition parse_end (s : string) : option bound :=
  if String.eqb s "+" then Some (Incl (u64_max, u64_max)) else parse_bound s u64_max.

Definition above (lo : bound) (i : StreamId) : bool :=
  match lo with
  | Incl l => id_leb l i
  | Excl l => id_ltb l i
  end.

Definition below (hi : option bound) (i : StreamId) : bool :=
  match hi with
  | None => true
  | Some (Incl h) => id_leb i h
  | Some (Excl h) => id_ltb i h
  end.

Definition stream_entries (db : Database) (key : string) : list (StreamId * Fields) :=
  match data db !! key with
  | Some (VStream es) => es
  | _ => []
  end.

(** One reply entry: [[id_string, [f1, v1, ...]]]. *)
Definition entry_reply (e : StreamId * Fields) : pyval :=
  PList [PStr (show_id e.1); PList (pstrs e.2)].

(** Modelled from the spec: [get_range_stream(key, start_id,
    end_id=None)] with the boundary syntax of section 4.2; [None] where a
    boundary does not parse. *)
Definition get_range_stream (db : Database) (key start_id : string)
    (end_id : option string) : option (list pyval) :=
  match parse_start start_id with
  | None => None
  | Some lo =>
      match match end_id with
            | None => Some None
            | Some e => option_map Some (parse_end e)
            end with
      | None => None
      | Some hi =>
          Some (map entry_reply
                  (List.filter (fun e => above lo e.1 && below hi e.1)
                     (stream_entries db key)))
      end
  end.

End Db.

(** ** The replica registry ([app.connection_registry]) *)

Module Registry.

(** Modelled from the spec: [ConnectionRegistry] of
    app/connection_registry.py, which is not among the sources (section
    4.4).  A writer handle is a connection number, and [sent] is what has
    been written to it, oldest first; writes do not fail here. *)
Record ReplicaRecord : Type := mkReplica {
  writer : option nat;
  replication_id : option string;
  acked_offset : option Z;
  sent : list string
}.

(** Modelled from the spec: [add_replica] creates a record. *)
Definition add_replica (reg : list ReplicaRecord) (w : option nat)
    (replid : option string) (offset : option Z) : list ReplicaRecord :=
  reg ++ [mkReplica w replid offset []].

Definition write (data : string) (r : ReplicaRecord) : ReplicaRecord :=
  mkReplica (writer r) (replication_id r) (acked_offset r) (sent r ++ [data]).

(** Modelled from the spec: [broadcast] writes to every replica writer. *)
Definition broadcast (reg : list ReplicaRecord) (data : string) : list ReplicaRecord :=
  map (write data) reg.

Definition get_replicas (reg : list ReplicaRecord) : list ReplicaRecord := reg.

Definition synced (target : Z) (r : ReplicaRecord) : bool :=
  match acked_offset r with
  | Some a => target <=? a
  | None => false
  end.

(** Modelled from the spec: [check_replica_sync] counts the records
    whose acked offset has reached the target. *)
Definition check_replica_sync (reg : list ReplicaRecord) (target : Z) : Z :=
  Z.of_nat (List.length (List.filter (synced target) reg)).

Definition same_writer (w : option nat) (r : ReplicaRecord) : bool :=
  match w, writer r with
  | Some a, Some b => Nat.eqb a b
  | None, None => true
  | _, _ => false
  end.

(** Modelled from the spec: [update_replica_offset] sets the acked
    offset of the record whose writer matches. *)
Definition update_replica_offset (reg : list ReplicaRecord) (w : option nat)
    (n : Z) : list ReplicaRecord :=
  map (fun r => if same_writer w r
                then mkReplica (writer r) (replication_id r) (Some n) (sent r)
                else r) reg.

End Registry.

(** ** The handler's state and control flow *)

(** The arguments a command function receives: the tail of a decoded
    array, or the decoded string itself when the frame was not an array
    ([get_command] leaves it as it is). *)
Inductive pyargs : Type :=
  | AList (l : list string)
  | AStr (s : string).

Fixpoint chars (s : string) : list string :=
  match s with
  | EmptyString => []
  | String c r => String c EmptyString :: chars r
  end.

(** Indexing, slicing and iterating see a [str] as its characters. *)
Definition elems (a : pyargs) : list string :=
  match a with
  | AList l => l
  | AStr s => chars s
  end.

(** The effects on the two shared stores, in program order: a write to
    the keyspace, and a write of [data] to every registered replica. *)
Inductive event : Type :=
  | EvDbSet (key value : string)
  | EvDbAdd (key id : string)
  | EvBroadcast (data : string).

(** The attributes of [RedisCommandHandler], with the two clocks the
    handler reads ([datetime.now()] in microseconds, the event loop's
    [time()] in seconds) and the log of effects. *)
Record state : Type := mkState {
  db : Db.Database;
  replication_id : option string;
  replication_offset : option Z;
  connection_registry : list Registry.ReplicaRecord;
  is_replica : bool;
  bytes_processed : Z;
  transaction_queue : option (list (string * pyargs));
  wall_clock : Z;
  loop_clock : Q;
  log : list event
}.

Definition with_db (d : Db.Database) (s : state) : state :=
  mkState d (replication_id s) (replication_offset s) (connection_registry s)
    (is_replica s) (bytes_processed s) (transaction_queue s) (wall_clock s)
    (loop_clock s) (log s).

Definition with_offset (o : option Z) (s : state) : state :=
  mkState (db s) (replication_id s) o (connection_registry s)
    (is_replica s) (bytes_processed s) (transaction_queue s) (wall_clock s)
    (loop_clock s) (log s).

Definition with_registry (r : list Registry.ReplicaRecord) (s : state) : state :=
  mkState (db s) (replication_id s) (replication_offset s) r
    (is_replica s) (bytes_processed s) (transaction_queue s) (wall_clock s)
    (loop_clock s) (log s).

Definition with_bytes_processed (n : Z) (s : state) : state :=
  mkState (db s) (replication_id s) (replication_offset s) (connection_registry s)
    (is_replica s) n (transaction_queue s) (wall_clock s)
    (loop_clock s) (log s).

Definition with_queue (q : option (list (string * pyargs))) (s : state) : state :=
  mkState (db s) (replication_id s) (replication_offset s) (connection_registry s)
    (is_replica s) (bytes_processed s) q (wall_clock s)
    (loop_clock s) (log s).

Definition with_event (e : event) (s : state) : state :=
  mkState (db s) (replication_id s) (replication_offset s) (connection_registry s)
    (is_replica s) (bytes_processed s) (transaction_queue s) (wall_clock s)
    (loop_clock s) (log s ++ [e]).

(** Python exceptions. *)
Inductive exn : Type :=
  | RedisException (msg : string)
  | ProtocolError
  | IndexError
  | ValueError
  | KeyError
  | TypeError
  | AttributeError.

(** How a call ends: it returns, it raises, or the bounded unrolling of
    a polling loop or of nested calls is used up. *)
Inductive res (A : Type) : Type :=
  | Ret (a : A)
  | Exc (e : exn)
  | OutOfFuel.
Arguments Ret {A} a.
Arguments Exc {A} e.
Arguments OutOfFuel {A}.

(** A method: the state goes in, the outcome and the state reached come
    out.  The state survives an exception. *)
Definition M (A : Type) : Type := state -> res A * state.

Definition ret {A} (a : A) : M A := fun s => (Ret a, s).
Definition raise {A} (e : exn) : M A := fun s => (Exc e, s).
Definition bind {A B} (m : M A) (k : A -> M B) : M B :=
  fun s =>
    match m s with
    | (Ret a, s') => k a s'
    | (Exc e, s') => (Exc e, s')
    | (OutOfFuel, s') => (OutOfFuel, s')
    end.
Definition gets {A} (f : state -> A) : M A := fun s => (Ret (f s), s).
Definition modify (f : state -> state) : M unit := fun s => (Ret tt, f s).
Definition lift {A} (r : res A) : M A := fun s => (r, s).

Notation "'let*' x ':=' m 'in' k" := (bind m (fun x => k))
  (at level 10, x name, m at level 100, k at level 200).

(** [l[i]] *)
Definition item (l : list string) (i : nat) : M string :=
  match l !! i with
  | Some x => ret x
  | None => raise IndexError
  end.

(** [int(s)] *)
Definition py_int (s : string) : M Z :=
  match int_of_str s with
  | Some z => ret z
  | None => raise ValueError
  end.

(** [l.index(x)] *)
Fixpoint index_of (x : string) (l : list string) : option nat :=
  match l with
  | [] => None
  | y :: r => if String.eqb y x then Some O else option_map S (index_of x r)
  end.

(** What a command function hands back: [(payload, reply_kind)], where
    the kind is [None] for bytes that are already encoded, or no value
    at all. *)
Definition response : Type := option (pyval * option RedisType).

Definition reply (v : pyval) (t : RedisType) : M response := ret (Some (v, Some t)).

(** What the process gets from outside: its environment variables,
    [fnmatch.fnmatch], and what the other tasks of the event loop have
    done to the shared state when a task that slept for [d] seconds is
    resumed. *)
Record env : Type := mkEnv {
  getenv : string -> option string;
  fnmatch : string -> string -> bool;
  suspend : Q -> state -> state
}.

(** A time on the event loop's clock, or [float('inf')]. *)
Inductive pyfloat : Type :=
  | Finite (q : Q)
  | Infinity.

(** [t > end_time] *)
Definition after (t : Q) (end_time : pyfloat) : bool :=
  match end_time with
  | Finite e => negb (Qle_bool t e)
  | Infinity => false
  end.

(** [base64.b64decode(EMPTY_RDB)]: the 88 bytes of an empty RDB file. *)
Definition empty_rdb : string :=
  string_of_list_ascii (map ascii_of_nat
    [82; 69; 68; 73; 83; 48; 48; 49; 49; 250; 9; 114; 101; 100; 105; 115; 45;
     118; 101; 114; 5; 55; 46; 50; 46; 48; 250; 10; 114; 101; 100; 105; 115;
     45; 98; 105; 116; 115; 192; 64; 250; 5; 99; 116; 105; 109; 101; 194; 109;
     8; 188; 101; 250; 8; 117; 115; 101; 100; 45; 109; 101; 109; 194; 176;
     196; 16; 0; 250; 8; 97; 111; 102; 45; 98; 97; 115; 101; 192; 0; 255; 240;
     110; 59; 254; 192; 255; 90; 162]%nat).

(** [f"{x}"] for an attribute that may be [None]. *)
Definition fmt_str (o : option string) : string :=
  match o with Some s => s | None => "None" end.
Definition fmt_int (o : option Z) : string :=
  match o with Some z => str_of_int z | None => "None" end.

(** ** The command handler ([app.handler]) *)

Definition PING := "ping".
Definition ECHO := "echo".
Definition SET := "set".
Definition GET := "get".
Definition INCR := "incr".
Definition XADD := "xadd".
Definition XRANGE := "xrange".
Definition XREAD := "xread".
Definition MULTI := "multi".
Definition EXEC := "exec".
Definition DISCARD := "discard".
Definition CONFIG := "config".
Definition KEYS := "keys".
Definition INFO := "info".
Definition REPLCONF := "replconf".
Definition PSYNC := "psync".
Definition WAIT := "wait".
Definition TYPE := "type".

(** [__init__]: the role comes from the environment; a master draws its
    replication id (here given) and starts at offset 0. *)
Definition init (E : env) (replid : string) (wall : Z) (loop : Q) : state :=
  let replica := match getenv E "replicaof" with
                 | Some (String _ _) => true
                 | _ => false
                 end in
  mkState Db.empty
    (if replica then None else Some replid)
    (if replica then None else Some 0)
    [] replica 0 None wall loop [].

(** *** Access to the keyspace and the registry *)

Definition db_set (key value : string) (expires_at : option Z) : M unit :=
  modify (fun s => with_event (EvDbSet key value)
                     (with_db (Db.set (db s) key value expires_at) s)).

Definition db_get (key : string) : M (option Db.Value) :=
  fun s => let '(v, d) := Db.get (db s) key (wall_clock s) in (Ret v, with_db d s).

Definition rbind {A B} (r : res A) (k : A -> res B) : res B :=
  match r with
  | Ret a => k a
  | Exc e => Exc e
  | OutOfFuel => OutOfFuel
  end.

(** [write_to_replicas]: the broadcast, then the offset moves by
    [len(data)].  The two statements are one step here: no other task is
    looked at between them. *)
Definition write_to_replicas (data : string) : M unit :=
  fun s =>
    let s1 := with_event (EvBroadcast data)
                (with_registry (Registry.broadcast (connection_registry s) data) s) in
    match replication_offset s1 with
    | Some o => (Ret tt, with_offset (Some (o + len data)) s1)
    | None => (Exc TypeError, s1)
    end.

Definition encode_array_m (xs : list pyval) : M string :=
  match Codec.encode_array xs with
  | Some b => ret b
  | None => raise TypeError
  end.

(** *** Command functions *)

Definition ping (command_arr : list string) : M response :=
  reply (PStr "PONG") SIMPLE_STRING.

Definition echo (args : list string) : M response :=
  let* x := item args 0 in reply (PStr x) BULK_STRING.

(** The loop of [set] over the optional arguments: [rest] is
    [optional_args[idx:]], so that [optional_args[idx+1]] is the head of
    its tail. *)
Fixpoint set_options (now : Z) (rest : list string) (expires_at : option Z)
    : res (option Z) :=
  match rest with
  | [] => Ret expires_at
  | arg :: rest' =>
      if String.eqb (lower arg) "px" then
        match rest' with
        | [] => Exc IndexError
        | n :: _ =>
            match int_of_str n with
            | Some ms => set_options now rest' (Some (now + ms * 1000))
            | None => Exc ValueError
            end
        end
      else if String.eqb (lower arg) "ex" then
        match rest' with
        | [] => Exc IndexError
        | n :: _ =>
            match int_of_str n with
            | Some sec => set_options now rest' (Some (now + sec * 1000000))
            | None => Exc ValueError
            end
        end
      else set_options now rest' expires_at
  end.

Definition set (args : list string) : M response :=
  let* key := item args 0 in
  let* value := item args 1 in
  let optional_args := drop 2 args in
  let* now := gets wall_clock in
  let* expires_at := lift (set_options now optional_args None) in
  let* _ := db_set key value expires_at in
  reply (PStr "OK") SIMPLE_STRING.

Definition xadd (args : list string) : M response :=
  let* stream_key := item args 0 in
  let* id := item args 1 in
  let key_value_pairs := drop 2 args in
  fun s =>
    match Db.add_stream (db s) stream_key id key_value_pairs
            (Z.to_N (wall_clock s / 1000)) with
    | inr (stream_id, d) =>
        (Ret (Some (PStr stream_id, Some BULK_STRING)),
         with_event (EvDbAdd stream_key stream_id) (with_db d s))
    | inl Db.SmallTop =>
        (Exc (RedisException
           "The ID specified in XADD is equal or smaller than the target stream top item"), s)
    | inl Db.SmallFirst =>
        (Exc (RedisException "The ID specified in XADD must be greater than 0-0"), s)
    | inl Db.BadId => (Exc ValueError, s)
    | inl Db.WrongType => (Exc TypeError, s)
    end.

Definition xrange (args : list string) : M response :=
  let* stream := item args 0 in
  let* start_id := item args 1 in
  let* end_id := item args 2 in
  let* d := gets db in
  match Db.get_range_stream d stream start_id (Some end_id) with
  | Some l => reply (PList l) ARRAY
  | None => raise ValueError
  end.

(** The loop of [xread] over [start_ids]: a [$] becomes the largest key
    of the stream's [dict] as it is now, and every start gets the paren
    that makes it exclusive. *)
Fixpoint resolve_starts (d : Db.Database) (stream_keys : list string)
    (idx : nat) (rest : list string) : res (list string) :=
  match rest with
  | [] => Ret []
  | val :: rest' =>
      rbind
        (if String.eqb val "$" then
           match stream_keys !! idx with
           | None => Exc IndexError
           | Some stream_key =>
               match Db.data d !! stream_key with
               | None => Exc KeyError
               | Some (Db.VString _) => Exc AttributeError
               | Some (Db.VStream es) =>
                   match Db.max_id (map fst es) with
                   | Some top => Ret (Db.show_id top)
                   | None => Exc ValueError
                   end
               end
           end
         else Ret val)
        (fun val =>
           rbind (resolve_starts d stream_keys (S idx) rest')
             (fun l => Ret (("(" ++ val) :: l)))
  end.

(** One pass of [xread] over [zip(stream_keys, start_ids)]. *)
Fixpoint xread_collect (d : Db.Database) (stream_keys start_ids : list string)
    : res (list pyval) :=
  match stream_keys, start_ids with
  | stream_key :: ks, start_id :: ids =>
      match Db.get_range_stream d stream_key start_id None with
      | None => Exc ValueError
      | Some stream_data =>
          rbind (xread_collect d ks ids)
            (fun l =>
               Ret (match stream_data with
                    | [] => l
                    | _ => PList [PStr stream_key; PList stream_data] :: l
                    end))
      end
  | _, _ => Ret []
  end.

(** [xread] up to its [while True]: the argument list is checked and
    lowercased, the block time and the deadline are read, the tail after
    [streams] is cut in two halves, and the start IDs are resolved.  The
    result is [(stream_keys, start_ids, block)], where [block] is [None]
    when no [block] argument was given, else the block time with
    [end_time]. *)
Definition xread_prepare (args : pyargs)
    : M (list string * list string * option (Z * pyfloat)) :=
  match args with
  | AStr _ => raise (RedisException "Invalid arguments. Expected streams in argument list")
  | AList args =>
      if negb (existsb (String.eqb "streams") args)
      then raise (RedisException "Invalid arguments. Expected streams in argument list")
      else
        let args := map lower args in
        match index_of "streams" args with
        | None => raise ValueError
        | Some streams_index =>
            let stream_args := drop (S streams_index) args in
            let* block :=
              match index_of "block" args with
              | None => ret None
              | Some block_index =>
                  let* t := item args (S block_index) in
                  let* block_time := py_int t in
                  if block_time <? 0
                  then raise (RedisException "Block time must be a non-negative integer.")
                  else
                    let* start_time := gets loop_clock in
                    let end_time := (start_time + inject_Z (block_time / 1000))%Q in
                    ret (Some (block_time,
                               if block_time =? 0 then Infinity else Finite end_time))
              end in
            if negb (Nat.eqb (List.length stream_args mod 2) 0)
            then raise (RedisException
                   "The number of stream keys must match the number of start IDs.")
            else
              let num_streams := (List.length stream_args / 2)%nat in
              let stream_keys := take num_streams stream_args in
              let start_ids := drop num_streams stream_args in
              let* d := gets db in
              let* start_ids := lift (resolve_starts d stream_keys 0 start_ids) in
              ret (stream_keys, start_ids, block)
        end
  end.

Section WithEnv.

Variable E : env.

(** The [while True] of [xread]. *)
Fixpoint xread_poll (fuel : nat) (stream_keys start_ids : list string)
    (block : option (Z * pyfloat)) : M response :=
  fun s =>
    match xread_collect (db s) stream_keys start_ids with
    | Exc e => (Exc e, s)
    | OutOfFuel => (OutOfFuel, s)
    | Ret (x :: l) => (Ret (Some (PList (x :: l), Some ARRAY)), s)
    | Ret [] =>
        match block with
        | None => (Ret (Some (PNone, Some BULK_STRING)), s)
        | Some (_, end_time) =>
            if after (loop_clock s) end_time
            then (Ret (Some (PNone, Some BULK_STRING)), s)
            else match fuel with
                 | O => (OutOfFuel, s)
                 | S fuel' =>
                     xread_poll fuel' stream_keys start_ids block
                       (suspend E (2 # 10) s)
                 end
        end
    end.

Definition xread (fuel : nat) (args : pyargs) : M response :=
  let* p := xread_prepare args in
  xread_poll fuel p.1.1 p.1.2 p.2.

Definition value_to_py (v : option Db.Value) : pyval :=
  match v with
  | None => PNone
  | Some (Db.VString s) => PStr s
  | Some (Db.VStream es) => PDict es
  end.

Definition get (key : list string) : M response :=
  let* key := item key 0 in
  let* value := db_get key in
  reply (value_to_py value) BULK_STRING.

Definition increment (key : list string) : M response :=
  let* key := item key 0 in
  let* value := db_get key in
  let* value :=
    match value with
    | None => ret 0
    | Some (Db.VString s) =>
        match int_of_str s with
        | Some z => ret z
        | None => raise (RedisException "value is not an integer or out of range")
        end
    | Some (Db.VStream _) => raise TypeError
    end in
  let value := value + 1 in
  let* _ := db_set key (str_of_int value) None in
  reply (PInt value) INTEGER.

Definition type (key : list string) : M response :=
  let* key := item key 0 in
  let* value := db_get key in
  reply (PStr (match value with
               | Some (Db.VString _) => "string"
               | Some (Db.VStream _) => "stream"
               | None => "none"
               end)) SIMPLE_STRING.

(** [pattern[0]] is evaluated once per key, so an empty database never
    indexes the pattern. *)
Definition keys (pattern : list string) : M response :=
  let* d := gets db in
  let* now := gets wall_clock in
  match Db.keys d now with
  | [] => reply (PList []) ARRAY
  | ks =>
      let* p := item pattern 0 in
      reply (PList (pstrs (List.filter (fun k => fnmatch E k p) ks))) ARRAY
  end.

Definition config_get (args : list string) : M response :=
  let* key := item args 0 in
  let value := match getenv E key with Some v => PStr v | None => PNone end in
  reply (PList [PStr key; value]) ARRAY.

Definition config (args : list string) : M response :=
  let* a := item args 0 in
  let subcommand := lower a in
  if String.eqb subcommand "get" then config_get (drop 1 args)
  else raise (RedisException ("Invalid config subcommand: " ++ subcommand)).

Definition info_replication : M response :=
  let is_replica := match getenv E "replicaof" with
                    | Some (String _ _) => true
                    | _ => false
                    end in
  if is_replica then reply (PStr "role:slave") BULK_STRING
  else
    let* off := gets replication_offset in
    let* id := gets replication_id in
    reply (PStr ("role:master" ++ CRLF ++
                 "master_repl_offset:" ++ fmt_int off ++ CRLF ++
                 "master_replid:" ++ fmt_str id)) BULK_STRING.

Definition info (args : list string) : M response :=
  match args with
  | [] => raise (RedisException "Currently, INFO command expects subcommand")
  | a :: _ =>
      let subcommand := lower a in
      if String.eqb subcommand "replication" then info_replication
      else raise (RedisException ("Invalid info subcommand: " ++ subcommand))
  end.

(** The [while True] of [wait]. *)
Fixpoint wait_poll (fuel : nat) (target_offset required_min_sync : Z)
    (end_time : Q) : M response :=
  fun s =>
    let replicas_synced :=
      Registry.check_replica_sync (connection_registry s) target_offset in
    if required_min_sync <=? replicas_synced
    then (Ret (Some (PInt replicas_synced, Some INTEGER)), s)
    else
      let current_time := loop_clock s in
      if Qle_bool end_time current_time
      then (Ret (Some (PInt replicas_synced, Some INTEGER)), s)
      else
        let remaining_time := (end_time - current_time)%Q in
        let wait_time :=
          if Qle_bool (1 # 10) remaining_time then (1 # 10)%Q else remaining_time in
        match fuel with
        | O => (OutOfFuel, s)
        | S fuel' =>
            wait_poll fuel' target_offset required_min_sync end_time
              (suspend E wait_time s)
        end.

Definition wait (fuel : nat) (args : list string) : M response :=
  let* a0 := item args 0 in
  let* required_min_sync := py_int a0 in
  let* a1 := item args 1 in
  let* timeout_ms := py_int a1 in
  let timeout_seconds := (inject_Z timeout_ms / 1000)%Q in
  let* target_offset := gets replication_offset in
  match target_offset with
  | Some 0 =>
      let* reg := gets connection_registry in
      reply (PInt (Z.of_nat (List.length (Registry.get_replicas reg)))) INTEGER
  | _ =>
      let* start_time := gets loop_clock in
      let end_time := (start_time + timeout_seconds)%Q in
      let* frame := encode_array_m (pstrs ["REPLCONF"; "GETACK"; "*"]) in
      let* _ := write_to_replicas frame in
      match target_offset with
      | Some target => wait_poll fuel target required_min_sync end_time
      | None => raise TypeError
      end
  end.

Definition replconf_getack (args : list string) : M response :=
  let* n := gets bytes_processed in
  reply (PList (pstrs ["REPLCONF"; "ACK"; str_of_int n])) ARRAY.

Definition replconf_ack (args : list string) (writer : option nat) : M response :=
  let* a := item args 0 in
  let* n := py_int a in
  let* _ := modify (fun s => with_registry
              (Registry.update_replica_offset (connection_registry s) writer n) s) in
  ret None.

Definition replconf (args : list string) (writer : option nat) : M response :=
  match args with
  | [] => raise (RedisException "Currently, REPLCONF command expects subcommand")
  | a :: _ =>
      let subcommand := lower a in
      if String.eqb subcommand "getack" then replconf_getack (drop 1 args)
      else if String.eqb subcommand "ack" then replconf_ack (drop 1 args) writer
      else reply (PStr "OK") SIMPLE_STRING
  end.

Definition psync (args : list string) (writer : option nat) : M response :=
  let* id := gets replication_id in
  let* off := gets replication_offset in
  let full_resync_command :=
    Codec.encode_simple_string ("FULLRESYNC " ++ fmt_str id ++ " " ++ fmt_int off) in
  let* _ := modify (fun s => with_registry
              (Registry.add_replica (connection_registry s) writer id off) s) in
  ret (Some (PStr (full_resync_command ++ Codec.encode_file empty_rdb), None)).

Definition multi (args : list string) : M response :=
  let* _ := modify (with_queue (Some [])) in
  reply (PStr "OK") SIMPLE_STRING.

(** The [for] loop of [exec]; [run] is [_execute] with
    [execute_transaction=True].  The loop walks the list that is the
    queue when EXEC starts; a queued MULTI or DISCARD rebinds the
    attribute and leaves that list alone. *)
Fixpoint exec_loop (run : string -> pyargs -> M response)
    (queue : list (string * pyargs)) : M (list pyval) :=
  match queue with
  | [] => ret []
  | (command, comm_arr) :: rest =>
      let* r := run command comm_arr in
      match r with
      | None => raise TypeError
      | Some (response, _) =>
          let* responses := exec_loop run rest in
          ret (response :: responses)
      end
  end.

Definition exec (run : string -> pyargs -> M response) (args : list string)
    : M response :=
  let* q := gets transaction_queue in
  match q with
  | None => raise (RedisException "EXEC without MULTI")
  | Some queue =>
      let* responses := exec_loop run queue in
      let* _ := modify (with_queue None) in
      reply (PList responses) ARRAY
  end.

Definition discard (args : list string) : M response :=
  let* q := gets transaction_queue in
  match q with
  | None => raise (RedisException "DISCARD without MULTI")
  | Some _ =>
      let* _ := modify (with_queue None) in
      reply (PStr "OK") SIMPLE_STRING
  end.

(** *** Dispatch *)

(** [get_command] *)
Definition get_command (command_arr : Codec.decoded) : M (string * pyargs) :=
  match command_arr with
  | Codec.DList [] => raise IndexError
  | Codec.DList (command :: rest) => ret (lower command, AList rest)
  | Codec.DStr command => ret (lower command, AStr command)
  end.

(** [kls_map.get(command)]: the bound method, called with the argument
    list and, for the two commands of [writer_set], the writer. *)
Definition kls_map (fuel : nat) (run : string -> pyargs -> M response)
    (command : string) : option (pyargs -> option nat -> M response) :=
  if String.eqb command PING then Some (fun a _ => ping (elems a))
  else if String.eqb command ECHO then Some (fun a _ => echo (elems a))
  else if String.eqb command SET then Some (fun a _ => set (elems a))
  else if String.eqb command GET then Some (fun a _ => get (elems a))
  else if String.eqb command INCR then Some (fun a _ => increment (elems a))
  else if String.eqb command XADD then Some (fun a _ => xadd (elems a))
  else if String.eqb command XRANGE then Some (fun a _ => xrange (elems a))
  else if String.eqb command XREAD then Some (fun a _ => xread fuel a)
  else if String.eqb command MULTI then Some (fun a _ => multi (elems a))
  else if String.eqb command EXEC then Some (fun a _ => exec run (elems a))
  else if String.eqb command DISCARD then Some (fun a _ => discard (elems a))
  else if String.eqb command CONFIG then Some (fun a _ => config (elems a))
  else if String.eqb command KEYS then Some (fun a _ => keys (elems a))
  else if String.eqb command INFO then Some (fun a _ => info (elems a))
  else if String.eqb command REPLCONF then Some (fun a w => replconf (elems a) w)
  else if String.eqb command PSYNC then Some (fun a w => psync (elems a) w)
  else if String.eqb command WAIT then Some (fun a _ => wait fuel (elems a))
  else if String.eqb command TYPE then Some (fun a _ => type (elems a))
  else None.

Definition get_command_kls (fuel : nat) (run : string -> pyargs -> M response)
    (command : string) : M (pyargs -> option nat -> M response) :=
  match kls_map fuel run command with
  | Some kls => ret kls
  | None => raise (RedisException "Invalid command")
  end.

(** [try: ... except RedisException as exc: return exc, RedisType.ERROR] *)
Definition try_redis (m : M response) : M response :=
  fun s =>
    match m s with
    | (Exc (RedisException msg), s') => (Ret (Some (PExc msg, Some ERROR)), s')
    | r => r
    end.

(** [_execute].  One unit of [fuel] pays for each level of calls from
    [exec] back into [_execute], and what is left bounds the polling
    loops of the command. *)
Fixpoint _execute (fuel : nat) (command : string) (command_arg : pyargs)
    (writer : option nat) (execute_transaction : bool) : M response :=
  match fuel with
  | O => lift OutOfFuel
  | S fuel' =>
      let run := fun c a => _execute fuel' c a None true in
      let* q := gets transaction_queue in
      match q, execute_transaction with
      | Some queue, false =>
          if String.eqb command EXEC then exec run (elems command_arg)
          else if String.eqb command DISCARD then discard (elems command_arg)
          else
            let* _ := modify (with_queue (Some (queue ++ [(command, command_arg)])%list)) in
            reply (PStr "QUEUED") SIMPLE_STRING
      | _, _ =>
          let* kls := get_command_kls fuel' run command in
          try_redis (kls command_arg writer)
      end
  end.

(** [encode] *)
Definition encode (data : pyval) (data_type : option RedisType) : M string :=
  match data_type, data with
  | Some INTEGER, PInt n => ret (Codec.encode_integer n)
  | Some BULK_STRING, PNone => ret (Codec.encode_bulk_string None)
  | Some BULK_STRING, PStr s => ret (Codec.encode_bulk_string (Some s))
  | Some ARRAY, PList l => encode_array_m l
  | Some SIMPLE_STRING, PStr s => ret (Codec.encode_simple_string s)
  | Some ERROR, PExc msg => ret (Codec.encode_error msg)
  | None, PStr s => ret s
  | _, _ => raise TypeError
  end.

Definition execute (fuel : nat) (command : string) (command_arg : pyargs)
    (writer : option nat) (execute_transaction : bool) : M (option string) :=
  let* response := _execute fuel command command_arg writer execute_transaction in
  match response with
  | Some (data, data_type) =>
      let* b := encode data data_type in ret (Some b)
  | None => ret None
  end.

Definition broadcast_set : list string := [SET].

Definition handle_master_command (fuel : nat) (command_data : string)
    (writer : option nat) : M (option string) :=
  match Codec.decode command_data with
  | None => raise ProtocolError
  | Some (command_arr, _) =>
      let* c := get_command command_arr in
      let command := c.1 in
      let command_arr := c.2 in
      let* _ := if existsb (String.eqb command) broadcast_set
                then write_to_replicas command_data
                else ret tt in
      execute fuel command command_arr writer false
  end.

Definition reply_back_commands : list string := [REPLCONF].

(** The [for] loop of [handle_replica]. *)
Fixpoint replica_loop (fuel : nat) (propogated_command : bool)
    (command_arr : list (Codec.decoded * Z)) : M (list (option string)) :=
  match command_arr with
  | [] => ret []
  | (command, comm_length) :: rest =>
      let* c := get_command command in
      let comm := c.1 in
      let comm_arr := c.2 in
      let* response := execute fuel comm comm_arr None false in
      let* _ := modify (fun s => with_bytes_processed (bytes_processed s + comm_length) s) in
      let* responses := replica_loop fuel propogated_command rest in
      ret (if negb propogated_command || existsb (String.eqb comm) reply_back_commands
           then response :: responses
           else responses)
  end.

(** ["".join(responses)] *)
Fixpoint join (responses : list (option string)) : res string :=
  match responses with
  | [] => Ret ""
  | None :: _ => Exc TypeError
  | Some r :: rest => rbind (join rest) (fun t => Ret (r ++ t))
  end.

Definition handle_replica (fuel : nat) (command_data : string)
    (propogated_command : bool) : M string :=
  match Codec.multi_command_decoder command_data with
  | None => raise ProtocolError
  | Some command_arr =>
      let* responses := replica_loop fuel propogated_command command_arr in
      lift (join responses)
  end.

Definition handle (fuel : nat) (command_data : string) (writer : option nat)
    (propogated_command : bool) : M (option string) :=
  let* r := gets is_replica in
  if r
  then let* out := handle_replica fuel command_data propogated_command in ret (Some out)
  else handle_master_command fuel command_data writer.

End WithEnv.

(** ** What the statements below talk about *)

(** The verbs of [kls_map]. *)
Definition supported : list string :=
  [PING; ECHO; SET; GET; INCR; XADD; XRANGE; XREAD; MULTI; EXEC; DISCARD;
   CONFIG; KEYS; INFO; REPLCONF; PSYNC; WAIT; TYPE].

(** [_execute] as [exec] calls it for a queued command. *)
Definition run_queued (E : env) (fuel : nat) : string -> pyargs -> M response :=
  fun c a => _execute E fuel c a None true.

(** The byte strings written to the replicas, oldest first. *)
Definition broadcasts (l : list event) : list string :=
  flat_map (fun e => match e with EvBroadcast d => [d] | _ => [] end) l.

Definition total_len (l : list string) : Z :=
  fold_right (fun d n => len d + n) 0 l.

(** A frame whose verb is [SET], whatever its case. *)
Definition is_set_frame (data : string) : bool :=
  match Codec.decode data with
  | Some (Codec.DList (c :: _), _) => String.eqb (lower c) SET
  | Some (Codec.DStr c, _) => String.eqb (lower c) SET
  | _ => false
  end.

(** The forwarded write commands. *)
Definition forwarded_writes (l : list event) : list string :=
  List.filter is_set_frame (broadcasts l).

(** The frame [wait] sends: [["REPLCONF", "GETACK", "*"]], 37 bytes. *)
Definition GETACK_FRAME : string := Codec.encode_command ["REPLCONF"; "GETACK"; "*"].

Definition forwarded_frame (d : string) : Prop :=
  is_set_frame d = true \/ d = GETACK_FRAME.

(** The offset counts the forwarded writes and nothing else. *)
Definition offset_counts_writes (s : state) : Prop :=
  replication_offset s = Some (total_len (forwarded_writes (log s))).

(** The offset counts every broadcast, on a master. *)
Definition offset_counts_broadcasts (s : state) : Prop :=
  is_replica s = false
  /\ replication_offset s = Some (total_len (broadcasts (log s)))
  /\ Forall forwarded_frame (broadcasts (log s)).

(** The states a master goes through: it starts from [__init__] and
    every call of [handle] ends in the next one, however the call ends. *)
Inductive reachable (E : env) : state -> Prop :=
  | reach_init replid wall loop :
      is_replica (init E replid wall loop) = false ->
      reachable E (init E replid wall loop)
  | reach_handle s fuel data w p :
      reachable E s -> reachable E (handle E fuel data w p s).2.

(** [s'] differs from [s] by nothing the replication bookkeeping reads. *)
Definition quiet (s s' : state) : Prop :=
  is_replica s' = is_replica s
  /\ replication_offset s' = replication_offset s
  /\ broadcasts (log s') = broadcasts (log s).

Definition preserves {A} (m : M A) : Prop :=
  forall s, offset_counts_broadcasts s -> offset_counts_broadcasts (m s).2.

Definition silent {A} (m : M A) : Prop := forall s, quiet s (m s).2.

(** Nothing was forwarded between [s] and [s']. *)
Definition unforwarded (s s' : state) : Prop :=
  replication_offset s' = replication_offset s
  /\ connection_registry s' = connection_registry s
  /\ broadcasts (log s') = broadcasts (log s).

(** In the events a call added to the log, the broadcast of [data] comes
    after a write to the keyspace. *)
Definition applied_before_forwarded (before after : list event) (data : string) : Prop :=
  exists pre post k v,
    after = (before ++ pre ++ EvBroadcast data :: post)%list /\ In (EvDbSet k v) pre.


(** The state without whatever is stored under [k]. *)
Definition forget (k : string) (s : state) : state :=
  with_db (Db.mkDatabase (delete k (Db.data (db s))) (Db.expiry (db s))) s.

(** [xread_prepare] as a function of the two things it reads, the loop
    clock and the database. *)
Definition xread_parse (args : pyargs) (clock : Q) (d : Db.Database)
    : res (list string * list string * option (Z * pyfloat)) :=
  match args with
  | AStr _ => Exc (RedisException "Invalid arguments. Expected streams in argument list")
  | AList args =>
      if negb (existsb (String.eqb "streams") args)
      then Exc (RedisException "Invalid arguments. Expected streams in argument list")
      else
        let args := map lower args in
        match index_of "streams" args with
        | None => Exc ValueError
        | Some streams_index =>
            let stream_args := drop (S streams_index) args in
            rbind
              (match index_of "block" args with
               | None => Ret None
               | Some block_index =>
                   match args !! S block_index with
                   | None => Exc IndexError
                   | Some t =>
                       match int_of_str t with
                       | None => Exc ValueError
                       | Some block_time =>
                           if block_time <? 0
                           then Exc (RedisException
                                  "Block time must be a non-negative integer.")
                           else Ret (Some (block_time,
                                  if block_time =? 0 then Infinity
                                  else Finite (clock + inject_Z (block_time / 1000))%Q))
                       end
                   end
               end)
              (fun block =>
                 if negb (Nat.eqb (List.length stream_args mod 2) 0)
                 then Exc (RedisException
                        "The number of stream keys must match the number of start IDs.")
                 else
                   let num_streams := (List.length stream_args / 2)%nat in
                   let stream_keys := take num_streams stream_args in
                   let start_ids := drop num_streams stream_args in
                   rbind (resolve_starts d stream_keys 0 start_ids)
                     (fun start_ids => Ret (stream_keys, start_ids, block)))
        end
  end.

(** *** A server on its own, for the worked examples *)

Definition with_loop_clock (t : Q) (s : state) : state :=
  mkState (db s) (replication_id s) (replication_offset s) (connection_registry s)
    (is_replica s) (bytes_processed s) (transaction_queue s) (wall_clock s)
    t (log s).

(** No [replicaof] in the environment, and no other task: a sleep of [d]
    seconds ends exactly [d] seconds later with nothing else changed. *)
Definition idle_env : env :=
  mkEnv (fun _ => None) String.eqb
        (fun d s => with_loop_clock (Qred (loop_clock s + d)) s).

(** A replica process: [replicaof] is set. *)
Definition replica_env : env :=
  mkEnv (fun name => if String.eqb name "replicaof" then Some "localhost 6379" else None)
        String.eqb
        (fun d s => with_loop_clock (Qred (loop_clock s + d)) s).

(** A second client that appends entry [2-0] to stream [s] while the
    observed task sleeps. *)
Definition writer_env : env :=
  mkEnv (fun _ => None) String.eqb
        (fun d s =>
           with_loop_clock (Qred (loop_clock s + d))
             (match Db.add_stream (db s) "s" "2-0" ["f"; "w"] 0 with
              | inr (_, d') => with_db d' s
              | inl _ => s
              end)).

Definition master0 : state := init idle_env "8371b4fb1155b71f4a04d3e1bc3e18c4a990aeeb" 0 0.

Definition replica0 : state := init replica_env "" 0 0.

Definition cmd (argv : list string) : string := Codec.encode_command argv.

(** The state after a client has sent the frames one after the other. *)
Definition after_commands (E : env) (frames : list string) (s : state) : state :=
  fold_left (fun st frame => (handle E 20 frame (Some 1%nat) false st).2) frames s.

(** MULTI, SET a 1, FOO, SET b 2: the three commands are queued. *)
Definition open_transaction : state :=
  after_commands idle_env
    [cmd ["MULTI"]; cmd ["SET"; "a"; "1"]; cmd ["FOO"]; cmd ["SET"; "b"; "2"]] master0.

(** A master after MULTI. *)
Definition in_multi : state := after_commands idle_env [cmd ["MULTI"]] master0.

(** A stream [s] with the entries 9-0 and 10-0. *)
Definition two_entries : state :=
  after_commands idle_env
    [cmd ["XADD"; "s"; "9-0"; "f"; "v"]; cmd ["XADD"; "s"; "10-0"; "f"; "v"]] master0.

(** A stream [s] with the entry 1-0, on a server where another client
    adds 2-0 during the first sleep. *)
Definition one_entry : state :=
  after_commands writer_env [cmd ["XADD"; "s"; "1-0"; "f"; "v"]]
    (init writer_env "8371b4fb1155b71f4a04d3e1bc3e18c4a990aeeb" 0 0).

(** A stream stored under the key [Foo]. *)
Definition upper_key : state :=
  after_commands idle_env [cmd ["XADD"; "Foo"; "1-0"; "f"; "v"]] master0.

(** A replica that has consumed two SET commands, 84 bytes, from its
    master. *)
Definition replica_after_sets : state :=
  (handle replica_env 20
     (cmd ["SET"; "mango"; "blueberry"] ++ cmd ["SET"; "strawberry"; "raspberry"])
     None true replica0).2.

(** ** What the further properties talk about *)

(** Every run of [m] ends in a state related to the one it started in. *)
Definition keeps {A} (R : state -> state -> Prop) (m : M A) : Prop :=
  forall s, R s (m s).2.

(** The role and the replication id are those of [s]. *)
Definition same_identity (s s' : state) : Prop :=
  is_replica s' = is_replica s /\ replication_id s' = replication_id s.

Definition same_bytes_processed (s s' : state) : Prop :=
  bytes_processed s' = bytes_processed s.

(** The offset of [s'] is at least that of [s]. *)
Definition offset_le (s s' : state) : Prop :=
  match replication_offset s, replication_offset s' with
  | Some a, Some b => a <= b
  | None, None => True
  | _, _ => False
  end.

Definition encode_commands (cmds : list (list string)) : string :=
  fold_right (fun argv buf => Codec.encode_command argv ++ buf) "" cmds.

(** The replies and the state after the frames of [frames], sent one
    after the other by connection [w]. *)
Fixpoint handle_all (E : env) (fuel : nat) (frames : list (list string))
    (w : option nat) : M (list (option string)) :=
  match frames with
  | [] => ret []
  | argv :: rest =>
      let* r := handle_master_command E fuel (cmd argv) w in
      let* rs := handle_all E fuel rest w in
      ret (r :: rs)
  end.

(** The verb of the frame is [verb], whatever its case. *)
Definition has_verb (verb : string) (argv : list string) : bool :=
  match argv with
  | c :: _ => String.eqb (lower c) verb
  | [] => false
  end.

(** A frame that an open transaction queues: it has a verb, and the verb
    is neither EXEC nor DISCARD. *)
Definition queueable (argv : list string) : bool :=
  match argv with
  | c :: _ => negb (String.eqb (lower c) EXEC) && negb (String.eqb (lower c) DISCARD)
  | [] => false
  end.

(** The queue entry of a frame. *)
Definition queue_entry (argv : list string) : string * pyargs :=
  match argv with
  | c :: args => (lower c, AList args)
  | [] => ("", AList [])
  end.


(** The integer a key stands for as INCR reads it: 0 when the key is
    missing or has expired, the value of its text when that is an
    integer. *)
Definition stored_int (s : state) (key : string) : option Z :=
  match (db_get key s).1 with
  | Ret None => Some 0
  | Ret (Some (Db.VString x)) => int_of_str x
  | _ => None
  end.

(** A text of visible ASCII characters other than the underscore: on
    these Python's [int] accepts exactly the decimal literals. *)
Definition plain_literal (x : string) : bool :=
  forallb (fun c => let n := nat_of_ascii c in
                    (32 <? n)%nat && (n <? 127)%nat && negb (n =? 95)%nat)
          (list_ascii_of_string x).

Definition with_wall_clock (t : Z) (s : state) : state :=
  mkState (db s) (replication_id s) (replication_offset s) (connection_registry s)
    (is_replica s) (bytes_processed s) (transaction_queue s) t
    (loop_clock s) (log s).

(** No stream of the call has an entry after its start. *)
Definition no_data (ks starts : list string) (s : state) : Prop :=
  xread_collect (db s) ks starts = Ret [].

(** A sleep of [d] seconds ends no earlier than [d] seconds later. *)
Definition clock_advances (E : env) : Prop :=
  forall d s, (loop_clock s + d <= loop_clock (suspend E d s))%Q.

(** The verbs whose handler indexes its argument list before anything
    else. *)
Definition needs_argument : list string :=
  [ECHO; GET; INCR; TYPE; XADD; XRANGE; CONFIG; WAIT].

(** The verb of a decoded frame, in lower case. *)
Definition verb_of (c : Codec.decoded) : option string :=
  match c with
  | Codec.DList (v :: _) => Some (lower v)
  | Codec.DList [] => None
  | Codec.DStr v => Some (lower v)
  end.


(** A master that has forwarded one SET. *)
Definition after_one_set : state :=
  after_commands idle_env [cmd ["SET"; "a"; "1"]] master0.

(** A master whose key [a] holds a text that is no number. *)
Definition holds_text : state :=
  after_commands idle_env [cmd ["SET"; "a"; "one"]] master0.

(** * Properties *)

(** ** The codec on the frames of tests/test_serialiser.py *)

Example decode_simple_string :
  Codec.decode ("+OK" ++ CRLF) = Some (Codec.DStr "OK", 5).
Proof. reflexivity. Qed.

Example decode_bulk_string :
  Codec.decode ("$5" ++ CRLF ++ "hello" ++ CRLF) = Some (Codec.DStr "hello", 11).
Proof. reflexivity. Qed.

Example decode_array :
  Codec.decode ("*2" ++ CRLF ++ "$3" ++ CRLF ++ "foo" ++ CRLF ++ "$3" ++ CRLF ++ "bar" ++ CRLF)
  = Some (Codec.DList ["foo"; "bar"], 22).
Proof. reflexivity. Qed.

Example encode_array_strings :
  Codec.encode_array (pstrs ["foo"; "bar"])
  = Some ("*2" ++ CRLF ++ "$3" ++ CRLF ++ "foo" ++ CRLF ++ "$3" ++ CRLF ++ "bar" ++ CRLF).
Proof. reflexivity. Qed.

Example complex_multi_command :
  Codec.multi_command_decoder
    (cmd ["REPLCONF"; "GETACK"; "*"] ++
     cmd ["SET"; "mango"; "blueberry"] ++
     cmd ["SET"; "strawberry"; "raspberry"])
  = Some [(Codec.DList ["REPLCONF"; "GETACK"; "*"], 37);
          (Codec.DList ["SET"; "mango"; "blueberry"], 39);
          (Codec.DList ["SET"; "strawberry"; "raspberry"], 45)].
Proof. vm_compute. reflexivity. Qed.

(** A list of strings encodes as the array of bulk strings. *)
Lemma encode_command_array (argv : list string) :
  Codec.encode_array (pstrs argv) = Some (Codec.encode_command argv).
Proof.
  unfold Codec.encode_array, Codec.encode_command, pstrs. cbn [Codec.encode_element].
  rewrite length_map.
  match goal with |- context [?f (map PStr argv)] => set (go := f) end.
  assert (H : go (map PStr argv)
              = Some (fold_right (fun a body => Codec.encode_bulk_string (Some a) ++ body)
                        "" argv)).
  { induction argv as [|a r IH]; [reflexivity|].
    cbn [map fold_right]. unfold go at 1. fold go. cbn [Codec.encode_element].
    now rewrite IH. }
  now rewrite H.
Qed.

Example getack_frame_length : len GETACK_FRAME = 37.
Proof. reflexivity. Qed.

(** ** Lowercasing *)
Lemma lower_ascii_not_upper (c : ascii) : is_upper (lower_ascii c) = false.
Proof.
  destruct c as [[] [] [] [] [] [] [] []]; reflexivity.
Qed.

Lemma lower_no_upper (x : string) : has_upper (lower x) = false.
Proof.
  induction x as [|c r IH]; [reflexivity|].
  cbn [lower has_upper]. now rewrite lower_ascii_not_upper, IH.
Qed.

Lemma lower_idem (x : string) : lower (lower x) = lower x.
Proof.
  induction x as [|c r IH]; [reflexivity|]. cbn [lower]. rewrite IH. f_equal.
  destruct c as [[] [] [] [] [] [] [] []]; reflexivity.
Qed.

Lemma lower_ne_upper (k x : string) : has_upper k = true -> lower x <> k.
Proof.
  intros Hk <-. now rewrite lower_no_upper in Hk.
Qed.

Lemma lowered_ne (k : string) (args : list string) :
  has_upper k = true -> Forall (fun key => key <> k) (map lower args).
Proof.
  intros Hk. apply Forall_forall. intros key Hin.
  apply list_elem_of_In, in_map_iff in Hin. destruct Hin as (x & <- & _).
  now apply lower_ne_upper.
Qed.

(** ** Decimal text *)

Lemma to_uint_nonnil (n : N) : N.to_uint n <> Decimal.Nil.
Proof.
  destruct n as [|p]; [discriminate|]. apply DecimalPos.Unsigned.to_uint_nonnil.
Qed.

Lemma N_of_str_of_N (n : N) : N_of_str (str_of_N n) = Some n.
Proof.
  unfold N_of_str, str_of_N. rewrite NilZero.usu by apply to_uint_nonnil.
  now rewrite DecimalN.Unsigned.of_to.
Qed.





(** ** The order on stream IDs *)








(** ** Dispatch *)

Lemma kls_map_unsupported E fuel run c :
  existsb (String.eqb c) supported = false -> kls_map E fuel run c = None.
Proof.
  unfold supported, kls_map. cbn [existsb]. intros H.
  repeat match goal with
  | |- context [String.eqb c ?x] => destruct (String.eqb c x); [discriminate H|]
  end.
  reflexivity.
Qed.

Lemma not_supported_neq c x :
  existsb (String.eqb c) supported = false -> In x supported -> String.eqb c x = false.
Proof.
  intros H Hin. destruct (String.eqb c x) eqn:Heq; [|reflexivity].
  rewrite <- H. symmetry. apply existsb_exists. exists x. auto.
Qed.

Lemma broadcasts_app (l l' : list event) :
  broadcasts (l ++ l') = (broadcasts l ++ broadcasts l')%list.
Proof. unfold broadcasts. apply flat_map_app. Qed.

Lemma total_len_app (l l' : list string) :
  total_len (l ++ l') = total_len l + total_len l'.
Proof.
  unfold total_len. induction l as [|x l IH]; cbn [fold_right app]; [reflexivity|].
  rewrite IH. lia.
Qed.

Lemma unforwarded_refl s : unforwarded s s.
Proof. now repeat split. Qed.


(** What [set] does, case by case. *)
Lemma set_eq args s :
  set args s =
  match args with
  | key :: value :: optional_args =>
      match set_options (wall_clock s) optional_args None with
      | Ret expires_at =>
          (Ret (Some (PStr "OK", Some SIMPLE_STRING)),
           with_event (EvDbSet key value)
             (with_db (Db.set (db s) key value expires_at) s))
      | Exc e => (Exc e, s)
      | OutOfFuel => (OutOfFuel, s)
      end
  | _ => (Exc IndexError, s)
  end.
Proof.
  destruct args as [|key [|value optional_args]]; reflexivity.
Qed.

Lemma set_options_no_redis now rest acc msg :
  set_options now rest acc <> Exc (RedisException msg).
Proof.
  revert acc. induction rest as [|a r IH]; intros acc; cbn [set_options]; [discriminate|].
  destruct (String.eqb (lower a) "px").
  { destruct r; [discriminate|]. destruct (int_of_str _); [apply IH | discriminate]. }
  destruct (String.eqb (lower a) "ex").
  { destruct r; [discriminate|]. destruct (int_of_str _); [apply IH | discriminate]. }
  apply IH.
Qed.

Lemma set_unforwarded args s : unforwarded s (set args s).2.
Proof.
  rewrite set_eq. destruct args as [|k [|v opts]]; try apply unforwarded_refl.
  destruct (set_options _ _ _); try apply unforwarded_refl.
  repeat split. cbn. rewrite broadcasts_app. cbn. apply app_nil_r.
Qed.

Lemma encode_state v t s : (encode v t s).2 = s.
Proof.
  unfold encode, encode_array_m.
  destruct t as [[]|], v; try reflexivity. destruct (Codec.encode_array l); reflexivity.
Qed.

Section Dispatch.

Variable E : env.

(** With a transaction open, a command other than EXEC and DISCARD is
    appended to the queue. *)
Lemma _execute_queued fuel command a w s q :
  transaction_queue s = Some q ->
  String.eqb command EXEC = false ->
  String.eqb command DISCARD = false ->
  _execute E (S fuel) command a w false s
  = (Ret (Some (PStr "QUEUED", Some SIMPLE_STRING)),
     with_queue (Some (q ++ [(command, a)])%list) s).
Proof.
  intros Hq He Hd. cbn [_execute]. unfold bind, gets. rewrite Hq, He, Hd. reflexivity.
Qed.

Lemma _execute_exec fuel a w s q :
  transaction_queue s = Some q ->
  _execute E (S fuel) EXEC a w false s = exec (run_queued E fuel) (elems a) s.
Proof.
  intros Hq. cbn [_execute]. unfold bind at 1, gets at 1. rewrite Hq. reflexivity.
Qed.

(** Outside a transaction, or from [exec], a known command runs inside
    the [try]. *)
Lemma _execute_call fuel command a w t s kls :
  transaction_queue s = None \/ t = true ->
  kls_map E fuel (run_queued E fuel) command = Some kls ->
  _execute E (S fuel) command a w t s = try_redis (kls a w) s.
Proof.
  intros Hq Hk. cbn [_execute]. unfold bind at 1, gets at 1.
  unfold get_command_kls. fold (run_queued E fuel). rewrite Hk.
  destruct Hq as [Hq | ->].
  - rewrite Hq. reflexivity.
  - destruct (transaction_queue s); reflexivity.
Qed.

(** An unknown command raises before the [try] is entered. *)
Lemma _execute_invalid fuel command a w t s :
  transaction_queue s = None \/ t = true ->
  kls_map E fuel (run_queued E fuel) command = None ->
  _execute E (S fuel) command a w t s = (Exc (RedisException "Invalid command"), s).
Proof.
  intros Hq Hk. cbn [_execute]. unfold bind at 1, gets at 1.
  unfold get_command_kls. fold (run_queued E fuel). rewrite Hk.
  destruct Hq as [Hq | ->].
  - rewrite Hq. reflexivity.
  - destruct (transaction_queue s); reflexivity.
Qed.

Lemma execute_eq fuel command a w t s :
  execute E fuel command a w t s =
  match _execute E fuel command a w t s with
  | (Ret (Some (data, data_type)), s') =>
      match encode data data_type s' with
      | (Ret b, s'') => (Ret (Some b), s'')
      | (Exc e, s'') => (Exc e, s'')
      | (OutOfFuel, s'') => (OutOfFuel, s'')
      end
  | (Ret None, s') => (Ret None, s')
  | (Exc e, s') => (Exc e, s')
  | (OutOfFuel, s') => (OutOfFuel, s')
  end.
Proof.
  unfold execute, bind.
  destruct (_execute E fuel command a w t s) as [[[[d ty]|]|e|] s']; reflexivity.
Qed.

Lemma execute_state fuel c a w t s :
  (execute E fuel c a w t s).2 = (_execute E fuel c a w t s).2.
Proof.
  rewrite execute_eq.
  destruct (_execute E fuel c a w t s) as [[[[v ty]|]|e|] s1]; try reflexivity.
  pose proof (encode_state v ty s1). destruct (encode v ty s1) as [[b|e|] s2]; exact H.
Qed.

(** [handle_master_command] on an array frame: the broadcast of a SET
    comes first, then [execute]. *)
Lemma handle_master_command_eq fuel data w s c args n :
  Codec.decode data = Some (Codec.DList (c :: args), n) ->
  handle_master_command E fuel data w s =
  if String.eqb (lower c) SET
  then match write_to_replicas data s with
       | (Ret _, s') => execute E fuel (lower c) (AList args) w false s'
       | (Exc e, s') => (Exc e, s')
       | (OutOfFuel, s') => (OutOfFuel, s')
       end
  else execute E fuel (lower c) (AList args) w false s.
Proof.
  intros Hd. unfold handle_master_command. rewrite Hd. cbn [get_command].
  unfold bind at 1. cbn [ret fst snd]. unfold broadcast_set. cbn [existsb].
  rewrite orb_false_r. destruct (String.eqb (lower c) SET).
  - unfold bind at 1. destruct (write_to_replicas data s) as [[u|e|] s']; reflexivity.
  - reflexivity.
Qed.



(** C1, as the code has it: when the master handles a SET frame, the
    first thing it does is write the raw frame to every registered
    replica and advance the offset; the write to its own keyspace, if the
    command gets that far, comes after the broadcast, and the reply after
    both.  The log of the call is the broadcast followed by at most one
    keyspace write, and a call that returns outside a transaction has
    made that write and answers OK. *)
Theorem set_forwarded_before_applied fuel data w s c args n o :
  Codec.decode data = Some (Codec.DList (c :: args), n) ->
  lower c = SET ->
  replication_offset s = Some o ->
  let r := handle_master_command E (S fuel) data w s in
  connection_registry r.2 = Registry.broadcast (connection_registry s) data
  /\ replication_offset r.2 = Some (o + len data)
  /\ exists post, log r.2 = (log s ++ EvBroadcast data :: post)%list
     /\ (post = [] \/ exists k v opts, args = k :: v :: opts /\ post = [EvDbSet k v])
     /\ (transaction_queue s = None -> forall out, r.1 = Ret out ->
           out = Some (Codec.encode_simple_string "OK")
           /\ exists k v opts, args = k :: v :: opts /\ post = [EvDbSet k v]
                /\ Db.data (db r.2) !! k = Some (Db.VString v)).
Proof.
  intros Hd Hc Ho r. subst r. rewrite (handle_master_command_eq _ _ _ _ _ _ _ Hd), Hc.
  change (String.eqb SET SET) with true. cbv iota.
  unfold write_to_replicas. cbn [replication_offset with_event with_registry].
  rewrite Ho.
  set (s1 := with_offset _ _).
  assert (Hlog : log s1 = (log s ++ [EvBroadcast data])%list) by reflexivity.
  assert (Hreg : connection_registry s1 = Registry.broadcast (connection_registry s) data)
    by reflexivity.
  assert (Hoff : replication_offset s1 = Some (o + len data)) by reflexivity.
  assert (Hq : transaction_queue s1 = transaction_queue s) by reflexivity.
  clearbody s1. rewrite execute_eq.
  assert (Hnone : forall (x : res (option string)) s2,
            connection_registry s2 = connection_registry s1 ->
            replication_offset s2 = replication_offset s1 ->
            log s2 = log s1 ->
            (transaction_queue s = None -> forall out, x <> Ret out) ->
            let r := (x, s2) in
            connection_registry r.2 = Registry.broadcast (connection_registry s) data
            /\ replication_offset r.2 = Some (o + len data)
            /\ exists post, log r.2 = (log s ++ EvBroadcast data :: post)%list
               /\ (post = [] \/ exists k v opts, args = k :: v :: opts /\ post = [EvDbSet k v])
               /\ (transaction_queue s = None -> forall out, r.1 = Ret out ->
                     out = Some (Codec.encode_simple_string "OK")
                     /\ exists k v opts, args = k :: v :: opts /\ post = [EvDbSet k v]
                          /\ Db.data (db r.2) !! k = Some (Db.VString v))).
  { intros x s2 H1 H2 H3 H4. cbn [fst snd].
    split; [congruence|]. split; [congruence|]. exists [].
    split; [congruence|]. split; [now left|].
    intros Hn out Hr. destruct (H4 Hn out Hr). }
  destruct (transaction_queue s1) as [q|] eqn:Eq.
  - rewrite (_execute_queued _ _ _ _ _ q Eq) by reflexivity.
    apply Hnone; try reflexivity. congruence.
  - rewrite (_execute_call _ SET _ _ _ _ (fun a _ => set (elems a))) by (auto || reflexivity).
    unfold try_redis. cbn [elems]. rewrite set_eq.
    destruct args as [|k [|v opts]]; [apply Hnone; try reflexivity; discriminate ..|].
    destruct (set_options (wall_clock s1) opts None) as [e|e|] eqn:Hopt.
    + cbn. split; [exact Hreg|]. split; [exact Hoff|]. exists [EvDbSet k v].
      split; [now rewrite Hlog, <- app_assoc|]. split; [right; eauto|].
      intros _ out Hr. injection Hr as <-. split; [reflexivity|].
      exists k, v, opts. split; [reflexivity|]. split; [reflexivity|].
      apply lookup_insert_eq.
    + destruct e; try (apply Hnone; try reflexivity; discriminate).
      exfalso. exact (set_options_no_redis _ _ _ _ Hopt).
    + apply Hnone; try reflexivity; discriminate.
Qed.

(** C3, at the inputs where the code departs from it: outside a
    transaction, a frame whose verb is not in [kls_map] makes
    [get_command_kls] raise [RedisException("Invalid command")] before
    the [try] of [_execute] is entered, so the exception leaves
    [handle_master_command] and no Error frame is produced. *)
Theorem unknown_verb_escapes fuel data w s verb args n :
  Codec.decode data = Some (Codec.DList (verb :: args), n) ->
  existsb (String.eqb (lower verb)) supported = false ->
  transaction_queue s = None ->
  handle_master_command E (S fuel) data w s
  = (Exc (RedisException "Invalid command"), s).
Proof.
  intros Hd Hu Hq. rewrite (handle_master_command_eq _ _ _ _ _ _ _ Hd).
  rewrite (not_supported_neq _ SET Hu) by (unfold supported; cbn; tauto).
  rewrite execute_eq, _execute_invalid; auto using kls_map_unsupported.
Qed.

Lemma exec_loop_unknown run pre verb a rest :
  (forall s, run verb a s = (Exc (RedisException "Invalid command"), s)) ->
  forall s,
  exec_loop run (pre ++ (verb, a) :: rest) s
  = match exec_loop run pre s with
    | (Ret _, s1) => (Exc (RedisException "Invalid command"), s1)
    | (Exc e, s1) => (Exc e, s1)
    | (OutOfFuel, s1) => (OutOfFuel, s1)
    end.
Proof.
  intros Hrun. induction pre as [|[c x] pre IH]; intros s.
  - cbn [app exec_loop]. unfold bind at 1. now rewrite Hrun.
  - cbn [app exec_loop]. unfold bind at 1 3.
    destruct (run c x s) as [[[[v t]|]|e|] s1]; try reflexivity.
    unfold bind. rewrite IH.
    destruct (exec_loop run pre s1) as [[l|e|] s2]; reflexivity.
Qed.

(** C4, at the inputs where the code departs from it: when a queued
    command has a verb that is not in [kls_map], EXEC runs the commands
    queued before it and then raises [RedisException("Invalid command")]
    out of the handler.  No reply array is built, the commands queued
    behind the unknown verb are not executed, and the queue is not
    cleared: the state is the one the earlier commands left. *)
Theorem exec_aborts_on_unknown_verb fuel data w s c args n pre verb a rest :
  Codec.decode data = Some (Codec.DList (c :: args), n) -> lower c = EXEC ->
  transaction_queue s = Some (pre ++ (verb, a) :: rest)%list ->
  existsb (String.eqb verb) supported = false ->
  handle_master_command E (S (S fuel)) data w s
  = match exec_loop (run_queued E (S fuel)) pre s with
    | (Ret _, s1) => (Exc (RedisException "Invalid command"), s1)
    | (Exc e, s1) => (Exc e, s1)
    | (OutOfFuel, s1) => (OutOfFuel, s1)
    end.
Proof.
  intros Hd Hc Hq Hu. rewrite (handle_master_command_eq _ _ _ _ _ _ _ Hd), Hc.
  change (String.eqb EXEC SET) with false. cbv iota. rewrite execute_eq.
  rewrite (_execute_exec (S fuel) _ _ _ _ Hq).
  unfold exec, bind at 1, gets at 1. rewrite Hq. unfold bind at 1.
  rewrite exec_loop_unknown.
  - destruct (exec_loop (run_queued E (S fuel)) pre s) as [[l|e|] s1]; reflexivity.
  - intros s1. unfold run_queued. apply _execute_invalid; [now right|].
    now apply kls_map_unsupported.
Qed.


(** C9: when the loop of [handle_replica] reaches a REPLCONF GETACK, the
    reply is [["REPLCONF", "ACK", n]] with [n] the value [bytes_processed]
    has before this command is counted; the length of the GETACK itself
    is added once the reply exists, and the rest of the buffer is handled
    from that larger count. *)
Theorem getack_acks_offset_before_itself fuel p c g args glen rest s :
  lower c = REPLCONF -> lower g = "getack" ->
  transaction_queue s = None ->
  replica_loop E (S fuel) p ((Codec.DList (c :: g :: args), glen) :: rest) s
  = bind (replica_loop E (S fuel) p rest)
      (fun responses =>
         ret (Some (Codec.encode_command
                      ["REPLCONF"; "ACK"; str_of_int (bytes_processed s)])
              :: responses))
      (with_bytes_processed (bytes_processed s + glen) s).
Proof.
  intros Hc Hg Hq. cbn [replica_loop get_command]. unfold bind at 1. cbn [ret fst snd].
  rewrite Hc. unfold bind at 1. rewrite execute_eq.
  rewrite (_execute_call fuel REPLCONF _ None false s (fun a w => replconf (elems a) w))
    by (auto || reflexivity).
  cbn [elems]. unfold try_redis, replconf. rewrite Hg.
  change (String.eqb "getack" "getack") with true. cbv iota.
  unfold replconf_getack, bind at 1, gets at 1, reply, ret at 1.
  unfold encode, encode_array_m. rewrite encode_command_array. unfold ret at 1.
  unfold bind at 1, modify at 1.
  change (existsb (String.eqb REPLCONF) reply_back_commands) with true.
  rewrite orb_true_r. reflexivity.
Qed.

End Dispatch.

(** ** XREAD *)

Section Forget.
Variable k : string.

Lemma forget_data (s s' : state) (key : string) :
  forget k s = forget k s' -> key <> k ->
  Db.data (db s) !! key = Db.data (db s') !! key.
Proof.
  intros H Hne. apply (f_equal (fun x => Db.data (db x) !! key)) in H.
  cbn in H. now rewrite !lookup_delete_ne in H by congruence.
Qed.

Lemma forget_clock (s s' : state) :
  forget k s = forget k s' -> loop_clock s = loop_clock s'.
Proof. intros H. exact (f_equal loop_clock H). Qed.

Lemma stream_entries_agree (d d' : Db.Database) (key : string) :
  Db.data d !! key = Db.data d' !! key ->
  Db.stream_entries d key = Db.stream_entries d' key.
Proof. unfold Db.stream_entries. now intros ->. Qed.

Lemma get_range_stream_agree (d d' : Db.Database) (key a : string) (b : option string) :
  Db.data d !! key = Db.data d' !! key ->
  Db.get_range_stream d key a b = Db.get_range_stream d' key a b.
Proof.
  intros H. unfold Db.get_range_stream. now rewrite (stream_entries_agree _ _ _ H).
Qed.

Lemma xread_collect_agree (d d' : Db.Database) (keys : list string) :
  Forall (fun key => Db.data d !! key = Db.data d' !! key) keys ->
  forall ids, xread_collect d keys ids = xread_collect d' keys ids.
Proof.
  induction 1 as [|key keys Hk _ IH]; intros ids; [reflexivity|].
  destruct ids as [|i ids]; [reflexivity|]. cbn [xread_collect].
  now rewrite (get_range_stream_agree _ _ _ _ _ Hk), IH.
Qed.

Lemma resolve_starts_agree (d d' : Db.Database) (keys : list string) :
  Forall (fun key => Db.data d !! key = Db.data d' !! key) keys ->
  forall rest idx, resolve_starts d keys idx rest = resolve_starts d' keys idx rest.
Proof.
  intros H. induction rest as [|val rest IH]; intros idx; [reflexivity|].
  cbn [resolve_starts]. rewrite IH.
  destruct (String.eqb val "$"); [|reflexivity].
  destruct (keys !! idx) as [key|] eqn:Hk; [|reflexivity].
  rewrite Forall_forall in H. rewrite (H key); [reflexivity|].
  eapply list_elem_of_lookup_2; eauto.
Qed.

Lemma xread_collect_labels (d : Db.Database) :
  forall ks ids l, xread_collect d ks ids = Ret l ->
  forall x, In x l -> exists key data, x = PList [PStr key; data] /\ In key ks.
Proof.
  induction ks as [|key ks IH]; intros ids l H x Hx.
  - cbn in H. injection H as <-. destruct Hx.
  - destruct ids as [|i ids]; [cbn in H; injection H as <-; destruct Hx|].
    cbn [xread_collect] in H.
    destruct (Db.get_range_stream d key i None) as [data|]; [|discriminate H].
    destruct (xread_collect d ks ids) as [l'| |] eqn:Hl; try discriminate H.
    cbn [rbind] in H. injection H as <-.
    destruct data as [|e data].
    + destruct (IH _ _ Hl x Hx) as (key' & dt & -> & Hin). exists key', dt. split; auto. now right.
    + destruct Hx as [<- | Hx].
      * eexists _, _. split; [reflexivity | now left].
      * destruct (IH _ _ Hl x Hx) as (key' & dt & -> & Hin). exists key', dt. split; auto. now right.
Qed.

End Forget.

(** [xread_prepare] reads the clock and the database and leaves the
    state as it is. *)
Lemma xread_prepare_eq (args : pyargs) (s : state) :
  xread_prepare args s = (xread_parse args (loop_clock s) (db s), s).
Proof.
  destruct args as [args|x]; [|reflexivity]. unfold xread_prepare, xread_parse.
  destruct (negb (existsb _ args)); [reflexivity|]. cbv zeta.
  destruct (index_of "streams" (map lower args)) as [si|]; [|reflexivity].
  unfold bind at 1.
  destruct (index_of "block" (map lower args)) as [bi|].
  - unfold bind at 1, item. destruct (map lower args !! S bi) as [t|]; [|reflexivity].
    unfold ret at 1. unfold bind at 1, py_int. destruct (int_of_str t) as [bt|]; [|reflexivity].
    unfold ret at 1. destruct (bt <? 0); [reflexivity|].
    unfold bind at 1, gets at 1, ret at 1. cbn [rbind].
    destruct (negb _); [reflexivity|].
    unfold bind at 1, gets at 1. unfold bind, lift, ret.
    destruct (resolve_starts _ _ _ _); reflexivity.
  - unfold ret at 1. cbn [rbind]. destruct (negb _); [reflexivity|].
    unfold bind at 1, gets at 1. unfold bind, lift, ret.
    destruct (resolve_starts _ _ _ _); reflexivity.
Qed.

Lemma xread_parse_keys (args : list string) (clock : Q) (d : Db.Database) keys starts block :
  xread_parse (AList args) clock d = Ret (keys, starts, block) ->
  exists n m, keys = take n (drop m (map lower args)).
Proof.
  unfold xread_parse. destruct (negb _); [discriminate|]. cbv zeta.
  destruct (index_of "streams" (map lower args)) as [si|]; [|discriminate].
  match goal with |- rbind ?b _ = _ -> _ => destruct b as [blk| |]; try discriminate end.
  cbn [rbind]. destruct (negb _); [discriminate|].
  destruct (resolve_starts _ _ _ _); try discriminate. cbn [rbind].
  intros [= <- _ _]. eauto.
Qed.

Lemma xread_parse_agree (k : string) (args : pyargs) (clock : Q) (d d' : Db.Database) :
  has_upper k = true ->
  (forall key, key <> k -> Db.data d !! key = Db.data d' !! key) ->
  xread_parse args clock d = xread_parse args clock d'.
Proof.
  intros Hk H. destruct args as [args|x]; [|reflexivity]. unfold xread_parse.
  destruct (negb _); [reflexivity|]. cbv zeta.
  destruct (index_of "streams" (map lower args)) as [si|]; [|reflexivity].
  match goal with |- rbind ?b _ = _ => destruct b as [blk| |]; try reflexivity end.
  cbn [rbind]. destruct (negb _); [reflexivity|].
  rewrite (resolve_starts_agree d d'); [reflexivity|].
  apply Forall_take, Forall_drop.
  eapply Forall_impl; [apply (lowered_ne k args Hk) | exact H].
Qed.

Lemma xread_prepare_state a s : (xread_prepare a s).2 = s.
Proof. now rewrite xread_prepare_eq. Qed.

(** [xread] is the preparation on the state at the call, then the
    polling loop with what the preparation returned. *)
Lemma xread_eq (E : env) (fuel : nat) (a : pyargs) (s : state) :
  xread E fuel a s =
  match xread_parse a (loop_clock s) (db s) with
  | Ret (stream_keys, start_ids, block) =>
      xread_poll E fuel stream_keys start_ids block s
  | Exc e => (Exc e, s)
  | OutOfFuel => (OutOfFuel, s)
  end.
Proof.
  unfold xread, bind. rewrite xread_prepare_eq.
  destruct (xread_parse a (loop_clock s) (db s)) as [[[ks starts] block]| |]; reflexivity.
Qed.



(** With BLOCK before STREAMS the tail after [streams] is exactly the
    keys followed by the IDs, and the two halves are the lowercased keys
    and the lowercased IDs. *)
Lemma xread_parse_block_first (t : string) (bt : Z) (ks ids : list string)
    (clock : Q) (d : Db.Database) :
  int_of_str (lower t) = Some bt -> 0 <= bt ->
  List.length ks = List.length ids ->
  xread_parse (AList ("block" :: t :: "streams" :: ks ++ ids)%list) clock d
  = rbind (resolve_starts d (map lower ks) 0 (map lower ids))
      (fun starts =>
         Ret (map lower ks, starts,
              Some (bt, if bt =? 0 then Infinity
                        else Finite (clock + inject_Z (bt / 1000))%Q))).
Proof.
  intros Ht Hbt Hlen. unfold xread_parse.
  assert (Hs : String.eqb (lower t) "streams" = false).
  { destruct (String.eqb_spec (lower t) "streams") as [e|]; [|reflexivity].
    rewrite e in Ht. discriminate Ht. }
  change (existsb (String.eqb "streams") ("block" :: t :: "streams" :: ks ++ ids)%list)
    with (String.eqb "streams" t || true). rewrite orb_true_r. cbv iota zeta. cbn [negb].
  cbn [map index_of]. change (lower "block") with "block".
  change (lower "streams") with "streams". change (String.eqb "block" "streams") with false.
  change (String.eqb "block" "block") with true. change (String.eqb "streams" "streams") with true.
  rewrite Hs. cbn [option_map]. cbv iota. cbn [lookup list_lookup].
  unfold lookup. cbn [list_lookup]. rewrite Ht.
  destruct (Z.ltb_spec bt 0) as [Hneg|_]; [lia|]. cbn [rbind drop].
  rewrite !drop_0, length_map, length_app, <- Hlen.
  replace (List.length ks + List.length ks)%nat with (2 * List.length ks)%nat by lia.
  rewrite Nat.mul_comm, Nat.Div0.mod_mul, Nat.div_mul by lia. cbn [Nat.eqb negb].
  rewrite map_app.
  rewrite take_app_length' by now rewrite length_map.
  rewrite drop_app_length' by now rewrite length_map.
  reflexivity.
Qed.

(** C5, at an input where the code departs from it: with BLOCK before
    STREAMS the tail after [streams] is the keys followed by the IDs, but
    with STREAMS first the tail runs to the end of the argument list, so
    [block] and its value are counted in it; cut in two halves it gives
    the keys [s], [0-0] and the start IDs [block], [1000]. *)
Theorem xread_block_after_streams_misparsed :
  (xread_prepare (AList ["block"; "1000"; "streams"; "s"; "0-0"]) master0).1
  = Ret (["s"], ["(0-0"], Some (1000, Finite 1%Q))
  /\ (xread_prepare (AList ["streams"; "s"; "0-0"; "block"; "1000"]) master0).1
     = Ret (["s"; "0-0"], ["(block"; "(1000"], Some (1000, Finite 1%Q)).
Proof. split; vm_compute; reflexivity. Qed.

(** C6, at an input where the code departs from it: for BLOCK 1500 the
    deadline is the entry time plus [1500 // 1000 = 1] second.  On a
    server with nothing else to do, whose sleeps of 0.2 s end on time,
    an XREAD entered at time 0 on a stream with no new entry answers
    with the null bulk string when the clock reads 1.2 s, which is
    0.3 s before the 1500 ms asked for. *)
Theorem xread_block_deadline_truncated :
  let s := after_commands idle_env [cmd ["XADD"; "s"; "1-0"; "f"; "v"]] master0 in
  let args := ["block"; "1500"; "streams"; "s"; "$"] in
  let r := handle_master_command idle_env 20 (cmd ("XREAD" :: args)) (Some 1%nat) s in
  loop_clock s = 0%Q
  /\ (xread_prepare (AList args) s).1
     = Ret (["s"], ["(1-0"], Some (1500, Finite 1%Q))
  /\ r.1 = Ret (Some (Codec.encode_bulk_string None))
  /\ loop_clock r.2 = (6 # 5)%Q.
Proof. repeat split; vm_compute; reflexivity. Qed.


Section Poll.
Variable E : env.
Variable k : string.
Hypothesis Hk : has_upper k = true.
Hypothesis suspend_forget : forall t s s',
  forget k s = forget k s' -> forget k (suspend E t s) = forget k (suspend E t s').

Lemma xread_poll_agree (keys starts : list string) (block : option (Z * pyfloat)) :
  Forall (fun key => key <> k) keys ->
  forall fuel s s', forget k s = forget k s' ->
  (xread_poll E fuel keys starts block s).1 = (xread_poll E fuel keys starts block s').1.
Proof.
  intros Hkeys. induction fuel as [|fuel IH]; intros s s' H.
  all: cbn [xread_poll].
  all: rewrite (xread_collect_agree (db s) (db s') keys)
    by (eapply Forall_impl; [exact Hkeys | intros key Hne; now apply (forget_data k)]).
  all: destruct (xread_collect (db s') keys starts) as [[|x l]| |]; try reflexivity.
  all: destruct block as [[bt end_time]|]; try reflexivity.
  all: rewrite (forget_clock k s s' H).
  all: destruct (after (loop_clock s') end_time); try reflexivity.
  apply IH. now apply suspend_forget.
Qed.

Lemma xread_poll_labels (keys starts : list string) (block : option (Z * pyfloat)) :
  forall fuel s l t, (xread_poll E fuel keys starts block s).1 = Ret (Some (PList l, t)) ->
  forall x, In x l -> exists key data, x = PList [PStr key; data] /\ In key keys.
Proof.
  induction fuel as [|fuel IH]; intros s l t.
  all: cbn [xread_poll].
  all: destruct (xread_collect (db s) keys starts) as [[|x0 l0]| |] eqn:Hc;
    try (cbn; discriminate).
  all: try (cbn; intros [= <- _]; now apply (xread_collect_labels (db s) keys starts)).
  all: destruct block as [[bt end_time]|]; try (cbn; discriminate).
  all: destruct (after (loop_clock s) end_time); try (cbn; discriminate).
  apply IH.
Qed.

(** C10: XREAD works on the lowercased argument list (calling it with
    the arguments already lowercased is the same call), so a stream
    stored under a key [k] that has an uppercase letter is never looked
    up: the outcome of an XREAD, whatever its arguments, is the same in
    two states that differ only in what is stored under [k], and no
    element of the reply carries [k] as its stream key.  The other tasks
    of the server are taken not to read [k] either. *)
Theorem xread_never_finds_uppercase_key (fuel : nat) (args : list string) (s s' : state) :
  forget k s = forget k s' ->
  (xread E fuel (AList args) s).1 = (xread E fuel (AList args) s').1
  /\ (forall l t data, (xread E fuel (AList args) s).1 = Ret (Some (PList l, t)) ->
        ~ In (PList [PStr k; data]) l)
  /\ (In "streams" args ->
        xread E fuel (AList args) s = xread E fuel (AList (map lower args)) s).
Proof.
  intros H. unfold xread, bind. rewrite !xread_prepare_eq.
  rewrite <- (forget_clock k s s' H).
  rewrite <- (xread_parse_agree k (AList args) (loop_clock s) (db s) (db s') Hk)
    by (intros key Hne; now apply (forget_data k)).
  split; [|split].
  - destruct (xread_parse (AList args) (loop_clock s) (db s)) as [[[keys starts] block]| |] eqn:Hp;
      try reflexivity.
    cbn [fst snd]. apply xread_poll_agree; [|exact H].
    destruct (xread_parse_keys _ _ _ _ _ _ Hp) as (n & m & ->).
    apply Forall_take, Forall_drop, lowered_ne, Hk.
  - intros l t data.
    destruct (xread_parse (AList args) (loop_clock s) (db s)) as [[[keys starts] block]| |] eqn:Hp;
      try (cbn; discriminate).
    cbn [fst snd]. intros Hr Hin.
    destruct (xread_poll_labels _ _ _ _ _ _ _ Hr _ Hin) as (key & dt & [= <- _] & Hkey).
    destruct (xread_parse_keys _ _ _ _ _ _ Hp) as (n & m & ->).
    assert (HF : Forall (fun key => key <> k) (take n (drop m (map lower args))))
      by apply Forall_take, Forall_drop, lowered_ne, Hk.
    rewrite Forall_forall in HF. apply (HF k); [|reflexivity].
    now apply list_elem_of_In.
  - intros Hin.
    assert (Hp : xread_parse (AList (map lower args)) (loop_clock s) (db s)
                 = xread_parse (AList args) (loop_clock s) (db s)).
    { unfold xread_parse. rewrite map_map.
      rewrite (map_ext (fun x => lower (lower x)) lower) by apply lower_idem.
      assert (H1 : existsb (String.eqb "streams") args = true).
      { apply existsb_exists. exists "streams". split; [exact Hin | reflexivity]. }
      assert (H2 : existsb (String.eqb "streams") (map lower args) = true).
      { apply existsb_exists. exists "streams". split; [|reflexivity].
        apply in_map_iff. exists "streams". split; [reflexivity | exact Hin]. }
      now rewrite H1, H2. }
    now rewrite Hp.
Qed.

End Poll.

(** ** The replication offset of a master *)

Lemma quiet_refl (s : state) : quiet s s.
Proof. now repeat split. Qed.

Lemma quiet_trans (a b c : state) : quiet a b -> quiet b c -> quiet a c.
Proof. intros (H1 & H2 & H3) (H4 & H5 & H6). repeat split; congruence. Qed.

Lemma quiet_inv (s s' : state) :
  quiet s s' -> offset_counts_broadcasts s -> offset_counts_broadcasts s'.
Proof.
  intros (H1 & H2 & H3) (I1 & I2 & I3). unfold offset_counts_broadcasts.
  rewrite H1, H2, H3. auto.
Qed.

Section Invariant.
Variable E : env.
Hypothesis suspend_inv : forall t s,
  offset_counts_broadcasts s -> offset_counts_broadcasts (suspend E t s).

Lemma silent_preserves {A} (m : M A) : silent m -> preserves m.
Proof. intros H s Hs. exact (quiet_inv _ _ (H s) Hs). Qed.

Lemma preserves_bind {A B} (m : M A) (k : A -> M B) :
  preserves m -> (forall a, preserves (k a)) -> preserves (bind m k).
Proof.
  intros Hm Hk s Hs. unfold bind. specialize (Hm s Hs).
  destruct (m s) as [[a|e|] s1]; cbn [snd] in *; auto. now apply Hk.
Qed.

Lemma preserves_ret {A} (a : A) : preserves (ret a).
Proof. intros s Hs. exact Hs. Qed.
Lemma preserves_raise {A} (e : exn) : preserves (raise (A:=A) e).
Proof. intros s Hs. exact Hs. Qed.
Lemma preserves_gets {A} (f : state -> A) : preserves (gets f).
Proof. intros s Hs. exact Hs. Qed.
Lemma preserves_lift {A} (r : res A) : preserves (lift r).
Proof. intros s Hs. exact Hs. Qed.
Lemma preserves_reply v t : preserves (reply v t).
Proof. intros s Hs. exact Hs. Qed.
Lemma preserves_item l i : preserves (item l i).
Proof. unfold item. destruct (l !! i); [apply preserves_ret | apply preserves_raise]. Qed.
Lemma preserves_py_int x : preserves (py_int x).
Proof. unfold py_int. destruct (int_of_str x); [apply preserves_ret | apply preserves_raise]. Qed.
Lemma preserves_encode_array_m xs : preserves (encode_array_m xs).
Proof. unfold encode_array_m. destruct (Codec.encode_array xs); [apply preserves_ret | apply preserves_raise]. Qed.
Lemma preserves_modify (f : state -> state) :
  (forall s, quiet s (f s)) -> preserves (modify f).
Proof. intros H. apply silent_preserves. intros s. apply H. Qed.

Lemma preserves_db_set k v e : preserves (db_set k v e).
Proof.
  apply preserves_modify. intros s. repeat split. cbn. rewrite broadcasts_app. cbn.
  apply app_nil_r.
Qed.

Lemma preserves_db_get k : preserves (db_get k).
Proof.
  apply silent_preserves. intros s. unfold db_get.
  destruct (Db.get (db s) k (wall_clock s)). now repeat split.
Qed.

Lemma preserves_write_to_replicas data :
  forwarded_frame data -> preserves (write_to_replicas data).
Proof.
  intros Hf s (I1 & I2 & I3). unfold write_to_replicas.
  cbn [replication_offset with_event with_registry]. rewrite I2. cbn [snd].
  unfold offset_counts_broadcasts. cbn. rewrite broadcasts_app, total_len_app. cbn.
  split; [exact I1|]. split; [f_equal; lia|].
  apply Forall_app. split; [exact I3|]. now constructor.
Qed.

Lemma preserves_try_redis m : preserves m -> preserves (try_redis m).
Proof.
  intros H s Hs. specialize (H s Hs). unfold try_redis.
  destruct (m s) as [[a|[]|] s1]; exact H.
Qed.

Lemma preserves_bind_ret {A B} (a : A) (k : A -> M B) :
  preserves (k a) -> preserves (bind (ret a) k).
Proof. intros H s. exact (H s). Qed.

Ltac pres_step :=
  lazymatch goal with
  | |- preserves (bind (ret _) _) => apply preserves_bind_ret; cbv beta
  | |- preserves (bind _ _) => apply preserves_bind; [|intros ?]
  | |- preserves (ret _) => apply preserves_ret
  | |- preserves (raise _) => apply preserves_raise
  | |- preserves (gets _) => apply preserves_gets
  | |- preserves (lift _) => apply preserves_lift
  | |- preserves (reply _ _) => apply preserves_reply
  | |- preserves (item _ _) => apply preserves_item
  | |- preserves (py_int _) => apply preserves_py_int
  | |- preserves (db_set _ _ _) => apply preserves_db_set
  | |- preserves (db_get _) => apply preserves_db_get
  | |- preserves (encode_array_m _) => apply preserves_encode_array_m
  | |- preserves (modify _) => apply preserves_modify; intros ?; now repeat split
  | |- preserves (match ?x with _ => _ end) => destruct x
  | |- preserves (let _ := _ in _) => cbv zeta
  end.
Ltac pres := repeat pres_step.

Lemma preserves_ping a : preserves (ping a).
Proof. unfold ping. pres. Qed.
Lemma preserves_echo a : preserves (echo a).
Proof. unfold echo. pres. Qed.
Lemma preserves_set a : preserves (set a).
Proof. unfold set. pres. Qed.
Lemma preserves_get a : preserves (get a).
Proof. unfold get. pres. Qed.
Lemma preserves_increment a : preserves (increment a).
Proof. unfold increment. pres. Qed.
Lemma preserves_type a : preserves (type a).
Proof. unfold type. pres. Qed.
Lemma preserves_keys a : preserves (keys E a).
Proof. unfold keys. pres. Qed.
Lemma preserves_config a : preserves (config E a).
Proof. unfold config, config_get. pres. Qed.
Lemma preserves_info a : preserves (info E a).
Proof. unfold info, info_replication. pres. Qed.
Lemma preserves_xrange a : preserves (xrange a).
Proof. unfold xrange. pres. Qed.
Lemma preserves_multi a : preserves (multi a).
Proof. unfold multi. pres. Qed.
Lemma preserves_discard a : preserves (discard a).
Proof. unfold discard. pres. Qed.
Lemma preserves_psync a w : preserves (psync a w).
Proof. unfold psync. pres. Qed.
Lemma preserves_replconf a w : preserves (replconf a w).
Proof. unfold replconf, replconf_getack, replconf_ack. pres. Qed.

Lemma preserves_xadd a : preserves (xadd a).
Proof.
  unfold xadd. pres. intros s Hs.
  destruct (Db.add_stream _ _ _ _ _) as [[]|[sid d]]; cbn [snd]; try exact Hs.
  refine (quiet_inv _ _ _ Hs). repeat split. cbn. rewrite broadcasts_app. cbn.
  apply app_nil_r.
Qed.

Lemma preserves_wait_poll target required end_time :
  forall fuel, preserves (wait_poll E fuel target required end_time).
Proof.
  induction fuel as [|fuel IH]; intros s Hs; cbn [wait_poll].
  all: destruct (_ <=? _); [exact Hs|].
  all: destruct (Qle_bool _ _); [exact Hs|].
  - exact Hs.
  - apply IH, suspend_inv, Hs.
Qed.

Lemma preserves_wait fuel a : preserves (wait E fuel a).
Proof.
  unfold wait.
  change (encode_array_m (pstrs ["REPLCONF"; "GETACK"; "*"])) with (ret GETACK_FRAME).
  pres.
  all: try (apply preserves_write_to_replicas; now right).
  all: apply preserves_wait_poll.
Qed.

Lemma preserves_xread_poll keys starts block :
  forall fuel, preserves (xread_poll E fuel keys starts block).
Proof.
  induction fuel as [|fuel IH]; intros s Hs; cbn [xread_poll].
  all: destruct (xread_collect _ _ _) as [[|x l]| |]; try exact Hs.
  all: destruct block as [[bt end_time]|]; try exact Hs.
  all: destruct (after _ _); try exact Hs.
  apply IH, suspend_inv, Hs.
Qed.

Lemma preserves_xread fuel a : preserves (xread E fuel a).
Proof.
  unfold xread. apply preserves_bind.
  - intros s Hs. now rewrite xread_prepare_state.
  - intros p. apply preserves_xread_poll.
Qed.

Lemma preserves_exec_loop run :
  (forall c a, preserves (run c a)) -> forall q, preserves (exec_loop run q).
Proof.
  intros Hrun. induction q as [|[c a] q IH]; cbn [exec_loop]; pres; auto.
Qed.

Lemma preserves_exec run a :
  (forall c a, preserves (run c a)) -> preserves (exec run a).
Proof.
  intros Hrun. unfold exec. pres. now apply preserves_exec_loop.
Qed.

Lemma preserves_kls fuel run command kls :
  (forall c a, preserves (run c a)) ->
  kls_map E fuel run command = Some kls -> forall a w, preserves (kls a w).
Proof.
  intros Hrun. unfold kls_map.
  repeat match goal with
  | |- (if ?b then _ else _) = _ -> _ => destruct b
  end; intros [= <-] a w;
  auto using preserves_ping, preserves_echo, preserves_set, preserves_get,
    preserves_increment, preserves_xadd, preserves_xrange, preserves_xread,
    preserves_multi, preserves_exec, preserves_discard, preserves_config,
    preserves_keys, preserves_info, preserves_replconf, preserves_psync,
    preserves_wait, preserves_type.
Qed.

Lemma preserves_call fuel run c a w :
  (forall c a, preserves (run c a)) ->
  preserves (bind (get_command_kls E fuel run c) (fun kls => try_redis (kls a w))).
Proof.
  intros Hrun. unfold get_command_kls.
  destruct (kls_map E fuel run c) as [kls|] eqn:Hk.
  - apply preserves_bind_ret, preserves_try_redis.
    exact (preserves_kls _ _ _ _ Hrun Hk _ _).
  - intros s Hs. exact Hs.
Qed.

Lemma preserves__execute :
  forall fuel c a w t, preserves (_execute E fuel c a w t).
Proof.
  induction fuel as [|fuel IH]; intros c a w t; cbn [_execute]; [apply preserves_lift|].
  assert (Hrun : forall c a, preserves (_execute E fuel c a None true)) by (intros; apply IH).
  apply preserves_bind; [apply preserves_gets | intros q].
  destruct q as [queue|], t; try (apply preserves_call; exact Hrun).
  destruct (String.eqb c EXEC); [apply preserves_exec; exact Hrun|].
  destruct (String.eqb c DISCARD); [apply preserves_discard|].
  pres.
Qed.

Lemma preserves_encode v t : preserves (encode v t).
Proof. unfold encode. pres. Qed.

Lemma preserves_execute fuel c a w t : preserves (execute E fuel c a w t).
Proof.
  unfold execute. pres; [apply preserves__execute | apply preserves_encode].
Qed.

Lemma preserves_handle_master_command fuel data w :
  preserves (handle_master_command E fuel data w).
Proof.
  unfold handle_master_command.
  destruct (Codec.decode data) as [[arr n]|] eqn:Hd; [|apply preserves_raise].
  assert (Hset : forall c, existsb (String.eqb c) broadcast_set = true ->
            String.eqb c SET = true).
  { intros c Hc. unfold broadcast_set in Hc. cbn [existsb] in Hc.
    now rewrite orb_false_r in Hc. }
  destruct arr as [x|[|x l]]; cbn [get_command]; [| intros s Hs; exact Hs |].
  - apply preserves_bind_ret. cbv beta zeta. cbn [fst snd].
    apply preserves_bind; [|intros; apply preserves_execute].
    destruct (existsb _ broadcast_set) eqn:Hb; [|apply preserves_ret].
    apply preserves_write_to_replicas. left. unfold is_set_frame. rewrite Hd. auto.
  - apply preserves_bind_ret. cbv beta zeta. cbn [fst snd].
    apply preserves_bind; [|intros; apply preserves_execute].
    destruct (existsb _ broadcast_set) eqn:Hb; [|apply preserves_ret].
    apply preserves_write_to_replicas. left. unfold is_set_frame. rewrite Hd. auto.
Qed.

Lemma preserves_handle fuel data w p : preserves (handle E fuel data w p).
Proof.
  intros s Hs. unfold handle, bind at 1, gets at 1.
  destruct Hs as (I1 & I2 & I3). rewrite I1.
  apply preserves_handle_master_command. now repeat split.
Qed.

Lemma init_counts replid wall loop :
  is_replica (init E replid wall loop) = false ->
  offset_counts_broadcasts (init E replid wall loop).
Proof.
  intros H. split; [exact H|]. unfold init in *. cbn in *.
  destruct (getenv E "replicaof") as [[|c r]|]; try discriminate H; now repeat split.
Qed.

(** C2, as the code has it: at every state a master reaches, the
    replication offset is the sum of the lengths of all the byte strings
    written to the replicas, and each of them is either the raw frame of
    a SET command or the REPLCONF GETACK frame that WAIT sends when the
    offset is not zero.  The other tasks of the server are taken to keep
    that relation while a task sleeps. *)
Theorem offset_is_sum_of_broadcasts (s : state) :
  reachable E s ->
  replication_offset s = Some (total_len (broadcasts (log s)))
  /\ Forall forwarded_frame (broadcasts (log s)).
Proof.
  intros H. assert (I : offset_counts_broadcasts s).
  { induction H as [replid wall loop H | s fuel data w p _ IH].
    - now apply init_counts.
    - now apply preserves_handle. }
  destruct I as (_ & I2 & I3). now split.
Qed.

End Invariant.

(** ** Worked examples *)

(** A master with one replica registered by PSYNC on connection 7. *)
Example master_with_replica :
  let r := handle_master_command idle_env 2 (cmd ["PSYNC"; "?"; "-1"]) (Some 7%nat) master0 in
  connection_registry r.2
  = [Registry.mkReplica (Some 7%nat) (replication_id master0) (Some 0) []].
Proof. vm_compute. reflexivity. Qed.

(** C1 as stated fails: a SET on a master with a replica answers OK, and
    the log of the call has the broadcast first and the write to the
    keyspace second; no write precedes the broadcast. *)
Lemma set_broadcast_precedes_write :
  let s := (handle_master_command idle_env 2 (cmd ["PSYNC"; "?"; "-1"]) (Some 7%nat) master0).2 in
  let data := cmd ["SET"; "foo"; "bar"] in
  let r := handle_master_command idle_env 2 data (Some 1%nat) s in
  r.1 = Ret (Some (Codec.encode_simple_string "OK"))
  /\ map Registry.sent (connection_registry r.2) = [[data]]
  /\ log r.2 = [EvBroadcast data; EvDbSet "foo" "bar"]
  /\ ~ applied_before_forwarded (log s) (log r.2) data.
Proof.
  cbv zeta. split; [vm_compute; reflexivity|]. split; [vm_compute; reflexivity|].
  split; [vm_compute; reflexivity|].
  intros (pre & post & k & v & H & Hin).
  assert (Hl : forall l l', log (handle_master_command idle_env 2 (cmd ["SET"; "foo"; "bar"])
                 (Some 1%nat)
                 (handle_master_command idle_env 2 (cmd ["PSYNC"; "?"; "-1"])
                    (Some 7%nat) master0).2).2 = l ->
               log (handle_master_command idle_env 2 (cmd ["PSYNC"; "?"; "-1"])
                    (Some 7%nat) master0).2 = l' ->
               l = [EvBroadcast (cmd ["SET"; "foo"; "bar"]); EvDbSet "foo" "bar"] /\ l' = []).
  { intros l l' <- <-. split; vm_compute; reflexivity. }
  destruct (Hl _ _ eq_refl eq_refl) as (H1 & H2). rewrite H1, H2 in H. cbn [app] in H.
  destruct pre as [|e pre]; [destruct Hin|].
  injection H as He H. subst e. destruct Hin as [Hin | Hin]; [discriminate Hin|].
  destruct pre as [|e pre]; [destruct Hin|].
  injection H as He H. destruct pre; discriminate H.
Qed.

Lemma set_forwarded_before_applied_witness :
  let s := (handle_master_command idle_env 2 (cmd ["PSYNC"; "?"; "-1"]) (Some 7%nat) master0).2 in
  let data := cmd ["SET"; "foo"; "bar"] in
  (Codec.decode data = Some (Codec.DList ["SET"; "foo"; "bar"], 31)
   /\ lower "SET" = SET
   /\ replication_offset s = Some 0)
  /\ let r := handle_master_command idle_env 2 data (Some 1%nat) s in
     connection_registry r.2 = Registry.broadcast (connection_registry s) data
     /\ replication_offset r.2 = Some (0 + len data)
     /\ exists post, log r.2 = (log s ++ EvBroadcast data :: post)%list
        /\ (post = [] \/ exists k v opts,
                           ["foo"; "bar"] = k :: v :: opts /\ post = [EvDbSet k v])
        /\ (transaction_queue s = None -> forall out, r.1 = Ret out ->
              out = Some (Codec.encode_simple_string "OK")
              /\ exists k v opts, ["foo"; "bar"] = k :: v :: opts /\ post = [EvDbSet k v]
                   /\ Db.data (db r.2) !! k = Some (Db.VString v)).
Proof.
  cbv zeta. split.
  - repeat split; vm_compute; reflexivity.
  - apply (set_forwarded_before_applied idle_env 1 (cmd ["SET"; "foo"; "bar"]) (Some 1%nat)
             _ "SET" ["foo"; "bar"] 31 0); vm_compute; reflexivity.
Defined.

Lemma reachable_after_commands (E : env) (frames : list string) :
  forall s, reachable E s -> reachable E (after_commands E frames s).
Proof.
  unfold after_commands. induction frames as [|f frames IH]; intros s Hs; [exact Hs|].
  cbn [fold_left]. apply IH. now apply reach_handle.
Qed.

Lemma idle_suspend_counts (t : Q) (s : state) :
  offset_counts_broadcasts s -> offset_counts_broadcasts (suspend idle_env t s).
Proof. intros H. exact H. Qed.

(** C2 as stated fails: after a SET of 27 bytes and a WAIT, the offset is
    64, the 27 bytes of the one forwarded write plus the 37 bytes of the
    GETACK frame. *)
Lemma wait_advances_offset :
  let s := after_commands idle_env [cmd ["SET"; "a"; "1"]; cmd ["WAIT"; "0"; "0"]] master0 in
  reachable idle_env s
  /\ replication_offset s = Some 64
  /\ total_len (forwarded_writes (log s)) = 27
  /\ ~ offset_counts_writes s.
Proof.
  cbv zeta. split.
  { apply reachable_after_commands. apply (reach_init idle_env). reflexivity. }
  assert (H1 : replication_offset (after_commands idle_env
                 [cmd ["SET"; "a"; "1"]; cmd ["WAIT"; "0"; "0"]] master0) = Some 64)
    by (vm_compute; reflexivity).
  assert (H2 : total_len (forwarded_writes (log (after_commands idle_env
                 [cmd ["SET"; "a"; "1"]; cmd ["WAIT"; "0"; "0"]] master0))) = 27)
    by (vm_compute; reflexivity).
  split; [exact H1|]. split; [exact H2|].
  unfold offset_counts_writes. rewrite H1, H2. discriminate.
Qed.

Lemma offset_is_sum_of_broadcasts_witness :
  let s := after_commands idle_env [cmd ["SET"; "a"; "1"]; cmd ["WAIT"; "0"; "0"]] master0 in
  reachable idle_env s
  /\ replication_offset s = Some (total_len (broadcasts (log s)))
  /\ Forall forwarded_frame (broadcasts (log s)).
Proof.
  cbv zeta.
  assert (H : reachable idle_env (after_commands idle_env
                [cmd ["SET"; "a"; "1"]; cmd ["WAIT"; "0"; "0"]] master0)).
  { apply reachable_after_commands. apply (reach_init idle_env). reflexivity. }
  split; [exact H|].
  exact (offset_is_sum_of_broadcasts idle_env idle_suspend_counts _ H).
Defined.

Lemma unknown_verb_escapes_witness :
  (Codec.decode (cmd ["FOO"; "bar"]) = Some (Codec.DList ["FOO"; "bar"], 22)
   /\ existsb (String.eqb (lower "FOO")) supported = false
   /\ transaction_queue master0 = None)
  /\ handle_master_command idle_env 1 (cmd ["FOO"; "bar"]) (Some 1%nat) master0
     = (Exc (RedisException "Invalid command"), master0).
Proof.
  split.
  - repeat split; vm_compute; reflexivity.
  - apply (unknown_verb_escapes idle_env 0 (cmd ["FOO"; "bar"]) (Some 1%nat) master0
             "FOO" ["bar"] 22); vm_compute; reflexivity.
Defined.

(** The code on a transaction with an unknown verb in the middle: EXEC
    raises, [a] has been set, [b] has not, and the queue is still open. *)
Example exec_unknown_verb_run :
  let r := handle_master_command idle_env 3 (cmd ["EXEC"]) (Some 1%nat) open_transaction in
  r.1 = Exc (RedisException "Invalid command")
  /\ Db.data (db r.2) !! "a" = Some (Db.VString "1")
  /\ Db.data (db r.2) !! "b" = None
  /\ transaction_queue r.2 = transaction_queue open_transaction.
Proof. repeat split; vm_compute; reflexivity. Qed.

Lemma exec_aborts_on_unknown_verb_witness :
  (Codec.decode (cmd ["EXEC"]) = Some (Codec.DList ["EXEC"], 14)
   /\ lower "EXEC" = EXEC
   /\ transaction_queue open_transaction
      = Some ([("set", AList ["a"; "1"])] ++
              ("foo", AList []) :: [("set", AList ["b"; "2"])])%list
   /\ existsb (String.eqb "foo") supported = false)
  /\ handle_master_command idle_env 3 (cmd ["EXEC"]) (Some 1%nat) open_transaction
     = match exec_loop (run_queued idle_env 2) [("set", AList ["a"; "1"])]
               open_transaction with
       | (Ret _, s1) => (Exc (RedisException "Invalid command"), s1)
       | (Exc e, s1) => (Exc e, s1)
       | (OutOfFuel, s1) => (OutOfFuel, s1)
       end.
Proof.
  split.
  - repeat split; vm_compute; reflexivity.
  - apply (exec_aborts_on_unknown_verb idle_env 1 (cmd ["EXEC"]) (Some 1%nat)
             open_transaction "EXEC" [] 14 [("set", AList ["a"; "1"])] "foo" (AList [])
             [("set", AList ["b"; "2"])]); vm_compute; reflexivity.
Defined.

(** A queued command that raises a [RedisException] of its own is
    reported at its position and the commands after it still run. *)
Example exec_reports_command_error :
  let s := after_commands idle_env
             [cmd ["SET"; "a"; "x"]; cmd ["MULTI"]; cmd ["INCR"; "a"]; cmd ["SET"; "b"; "2"]]
             master0 in
  let r := _execute idle_env 3 EXEC (AList []) (Some 1%nat) false s in
  r.1 = Ret (Some (PList [PExc "value is not an integer or out of range"; PStr "OK"],
                   Some ARRAY))
  /\ Db.data (db r.2) !! "b" = Some (Db.VString "2")
  /\ transaction_queue r.2 = None.
Proof. repeat split; vm_compute; reflexivity. Qed.

(** The [$] of a stream with the entries 9-0 and 10-0 is 10-0. *)
Example dollar_of_two_entries :
  resolve_starts (db two_entries) ["s"] 0 ["$"] = Ret ["(10-0"].
Proof. vm_compute. reflexivity. Qed.

(** A blocking XREAD with [$] on a stream whose top is 1-0 returns the
    entry 2-0 that another client adds during the wait. *)
Example xread_dollar_sees_later_entry :
  (xread writer_env 5 (AList ["block"; "1000"; "streams"; "s"; "$"]) one_entry).1
  = Ret (Some (PList [PList [PStr "s";
                             PList [PList [PStr "2-0"; PList [PStr "f"; PStr "w"]]]]],
               Some ARRAY)).
Proof. vm_compute. reflexivity. Qed.



(** MULTI, SET a 1, EXEC on a master: one broadcast, made when the SET
    was queued, and one write to the keyspace, made by EXEC. *)
Example transaction_log :
  let s := after_commands idle_env
             [cmd ["MULTI"]; cmd ["SET"; "a"; "1"]; cmd ["EXEC"]] master0 in
  log s = [EvBroadcast (cmd ["SET"; "a"; "1"]); EvDbSet "a" "1"]
  /\ replication_offset s = Some 27.
Proof. split; vm_compute; reflexivity. Qed.

Lemma getack_acks_offset_before_itself_witness :
  (lower "REPLCONF" = REPLCONF /\ lower "GETACK" = "getack"
   /\ transaction_queue replica_after_sets = None)
  /\ replica_loop replica_env 1 true
       [(Codec.DList ["REPLCONF"; "GETACK"; "*"], 37)] replica_after_sets
     = bind (replica_loop replica_env 1 true [])
         (fun responses =>
            ret (Some (Codec.encode_command
                         ["REPLCONF"; "ACK";
                          str_of_int (bytes_processed replica_after_sets)])
                 :: responses))
         (with_bytes_processed (bytes_processed replica_after_sets + 37)
            replica_after_sets).
Proof.
  split.
  - repeat split; vm_compute; reflexivity.
  - apply (getack_acks_offset_before_itself replica_env 0 true "REPLCONF" "GETACK"
             ["*"] 37 [] replica_after_sets); vm_compute; reflexivity.
Defined.

(** The buffer of tests/test_serialiser.py on a fresh replica: the GETACK
    that comes first is answered with 0, all 121 bytes are counted, and
    a GETACK that follows is answered with 121 and counted after. *)
Example getack_then_sets :
  let buf := cmd ["REPLCONF"; "GETACK"; "*"] ++ cmd ["SET"; "mango"; "blueberry"] ++
             cmd ["SET"; "strawberry"; "raspberry"] in
  let r := handle replica_env 5 buf None true replica0 in
  let r' := handle replica_env 5 (cmd ["REPLCONF"; "GETACK"; "*"]) None true r.2 in
  r.1 = Ret (Some (cmd ["REPLCONF"; "ACK"; "0"]))
  /\ bytes_processed r.2 = 121
  /\ r'.1 = Ret (Some (cmd ["REPLCONF"; "ACK"; "121"]))
  /\ bytes_processed r'.2 = 158.
Proof. repeat split; vm_compute; reflexivity. Qed.

Lemma idle_suspend_forget (k : string) (t : Q) (s s' : state) :
  forget k s = forget k s' ->
  forget k (suspend idle_env t s) = forget k (suspend idle_env t s').
Proof.
  intros H. cbn [suspend idle_env]. rewrite (forget_clock k s s' H).
  change (with_loop_clock (Qred (loop_clock s' + t)) (forget k s)
          = with_loop_clock (Qred (loop_clock s' + t)) (forget k s')).
  now rewrite H.
Qed.

Lemma xread_never_finds_uppercase_key_witness :
  let args := ["streams"; "Foo"; "0-0"] in
  (has_upper "Foo" = true /\ forget "Foo" upper_key = forget "Foo" (forget "Foo" upper_key))
  /\ (xread idle_env 5 (AList args) upper_key).1
      = (xread idle_env 5 (AList args) (forget "Foo" upper_key)).1
  /\ (forall l t data,
        (xread idle_env 5 (AList args) upper_key).1 = Ret (Some (PList l, t)) ->
        ~ In (PList [PStr "Foo"; data]) l)
  /\ (In "streams" args ->
        xread idle_env 5 (AList args) upper_key
        = xread idle_env 5 (AList (map lower args)) upper_key).
Proof.
  cbv zeta.
  assert (H : forget "Foo" upper_key = forget "Foo" (forget "Foo" upper_key))
    by (vm_compute; reflexivity).
  split; [split; [reflexivity | exact H]|].
  exact (xread_never_finds_uppercase_key idle_env "Foo" eq_refl
           (idle_suspend_forget "Foo") 5 ["streams"; "Foo"; "0-0"] upper_key
           (forget "Foo" upper_key) H).
Defined.

(** XREAD naming the key [Foo] answers with the null bulk string although
    the stream has an entry after 0-0, which XRANGE returns. *)
Example xread_misses_uppercase_key :
  (handle_master_command idle_env 5 (cmd ["XREAD"; "streams"; "Foo"; "0-0"])
     (Some 1%nat) upper_key).1 = Ret (Some (Codec.encode_bulk_string None))
  /\ (handle_master_command idle_env 5 (cmd ["XRANGE"; "Foo"; "0-0"; "+"])
        (Some 1%nat) upper_key).1
     = Ret (Codec.encode_array
              [PList [PStr "1-0"; PList [PStr "f"; PStr "v"]]]).
Proof. split; vm_compute; reflexivity. Qed.

(** * Further properties of the handler *)

(** ** What no command changes *)

Section Frame.

Variable E : env.
Variable R : state -> state -> Prop.
Hypothesis R_refl : forall s, R s s.
Hypothesis R_trans : forall a b c, R a b -> R b c -> R a c.
Hypothesis R_db : forall d s, R s (with_db d s).
Hypothesis R_queue : forall q s, R s (with_queue q s).
Hypothesis R_registry : forall r s, R s (with_registry r s).
Hypothesis R_event : forall e s, R s (with_event e s).
Hypothesis R_write : forall data s, R s (write_to_replicas data s).2.
Hypothesis R_suspend : forall t s, R s (suspend E t s).

Lemma keeps_bind {A B} (m : M A) (k : A -> M B) :
  keeps R m -> (forall a, keeps R (k a)) -> keeps R (bind m k).
Proof.
  intros Hm Hk s. unfold bind. specialize (Hm s).
  destruct (m s) as [[a|e|] s1]; cbn [snd] in *; auto.
  exact (R_trans _ _ _ Hm (Hk a s1)).
Qed.

Lemma keeps_ret {A} (a : A) : keeps R (ret a).
Proof. intros s. apply R_refl. Qed.
Lemma keeps_raise {A} (e : exn) : keeps R (raise (A:=A) e).
Proof. intros s. apply R_refl. Qed.
Lemma keeps_gets {A} (f : state -> A) : keeps R (gets f).
Proof. intros s. apply R_refl. Qed.
Lemma keeps_lift {A} (r : res A) : keeps R (lift r).
Proof. intros s. apply R_refl. Qed.
Lemma keeps_reply v t : keeps R (reply v t).
Proof. intros s. apply R_refl. Qed.
Lemma keeps_item l i : keeps R (item l i).
Proof. unfold item. destruct (l !! i); [apply keeps_ret | apply keeps_raise]. Qed.
Lemma keeps_py_int x : keeps R (py_int x).
Proof. unfold py_int. destruct (int_of_str x); [apply keeps_ret | apply keeps_raise]. Qed.
Lemma keeps_encode_array_m xs : keeps R (encode_array_m xs).
Proof.
  unfold encode_array_m. destruct (Codec.encode_array xs); [apply keeps_ret | apply keeps_raise].
Qed.
Lemma keeps_modify (f : state -> state) : (forall s, R s (f s)) -> keeps R (modify f).
Proof. intros H s. apply H. Qed.
Lemma keeps_db_set k v e : keeps R (db_set k v e).
Proof. apply keeps_modify. intros s. exact (R_trans _ _ _ (R_db _ s) (R_event _ _)). Qed.
Lemma keeps_db_get k : keeps R (db_get k).
Proof.
  intros s. unfold db_get. destruct (Db.get (db s) k (wall_clock s)). apply R_db.
Qed.
Lemma keeps_write_to_replicas data : keeps R (write_to_replicas data).
Proof. intros s. apply R_write. Qed.
Lemma keeps_try_redis m : keeps R m -> keeps R (try_redis m).
Proof.
  intros H s. specialize (H s). unfold try_redis.
  destruct (m s) as [[a|[]|] s1]; exact H.
Qed.
Lemma keeps_bind_ret {A B} (a : A) (k : A -> M B) :
  keeps R (k a) -> keeps R (bind (ret a) k).
Proof. intros H s. exact (H s). Qed.

Ltac keep_step :=
  lazymatch goal with
  | |- keeps _ (bind (ret _) _) => apply keeps_bind_ret; cbv beta
  | |- keeps _ (bind _ _) => apply keeps_bind; [|intros ?]
  | |- keeps _ (ret _) => apply keeps_ret
  | |- keeps _ (raise _) => apply keeps_raise
  | |- keeps _ (gets _) => apply keeps_gets
  | |- keeps _ (lift _) => apply keeps_lift
  | |- keeps _ (reply _ _) => apply keeps_reply
  | |- keeps _ (item _ _) => apply keeps_item
  | |- keeps _ (py_int _) => apply keeps_py_int
  | |- keeps _ (db_set _ _ _) => apply keeps_db_set
  | |- keeps _ (db_get _) => apply keeps_db_get
  | |- keeps _ (encode_array_m _) => apply keeps_encode_array_m
  | |- keeps _ (write_to_replicas _) => apply keeps_write_to_replicas
  | |- keeps _ (modify (with_queue _)) => apply keeps_modify; intros ?; apply R_queue
  | |- keeps _ (modify (fun s => with_registry _ s)) =>
      apply keeps_modify; intros ?; apply R_registry
  | |- keeps _ (match ?x with _ => _ end) => destruct x
  | |- keeps _ (let _ := _ in _) => cbv zeta
  end.
Ltac keep := repeat keep_step.

Lemma keeps_ping a : keeps R (ping a).
Proof. unfold ping. keep. Qed.
Lemma keeps_echo a : keeps R (echo a).
Proof. unfold echo. keep. Qed.
Lemma keeps_set a : keeps R (set a).
Proof. unfold set. keep. Qed.
Lemma keeps_get a : keeps R (get a).
Proof. unfold get. keep. Qed.
Lemma keeps_increment a : keeps R (increment a).
Proof. unfold increment. keep. Qed.
Lemma keeps_type a : keeps R (type a).
Proof. unfold type. keep. Qed.
Lemma keeps_keys a : keeps R (keys E a).
Proof. unfold keys. keep. Qed.
Lemma keeps_config a : keeps R (config E a).
Proof. unfold config, config_get. keep. Qed.
Lemma keeps_info a : keeps R (info E a).
Proof. unfold info, info_replication. keep. Qed.
Lemma keeps_xrange a : keeps R (xrange a).
Proof. unfold xrange. keep. Qed.
Lemma keeps_multi a : keeps R (multi a).
Proof. unfold multi. keep. Qed.
Lemma keeps_discard a : keeps R (discard a).
Proof. unfold discard. keep. Qed.
Lemma keeps_psync a w : keeps R (psync a w).
Proof. unfold psync. keep. Qed.
Lemma keeps_replconf a w : keeps R (replconf a w).
Proof. unfold replconf, replconf_getack, replconf_ack. keep. Qed.

Lemma keeps_xadd a : keeps R (xadd a).
Proof.
  unfold xadd. keep. intros s.
  destruct (Db.add_stream _ _ _ _ _) as [[]|[sid d]]; cbn [snd]; try apply R_refl.
  exact (R_trans _ _ _ (R_db _ s) (R_event _ _)).
Qed.

Lemma keeps_wait_poll target required end_time :
  forall fuel, keeps R (wait_poll E fuel target required end_time).
Proof.
  induction fuel as [|fuel IH]; intros s; cbn [wait_poll].
  all: destruct (_ <=? _); [apply R_refl|].
  all: destruct (Qle_bool _ _); [apply R_refl|].
  - apply R_refl.
  - exact (R_trans _ _ _ (R_suspend _ s) (IH _)).
Qed.

Lemma keeps_wait fuel a : keeps R (wait E fuel a).
Proof. unfold wait. keep; apply keeps_wait_poll. Qed.

Lemma keeps_xread_poll ks starts block :
  forall fuel, keeps R (xread_poll E fuel ks starts block).
Proof.
  induction fuel as [|fuel IH]; intros s; cbn [xread_poll].
  all: destruct (xread_collect _ _ _) as [[|x l]| |]; try apply R_refl.
  all: destruct block as [[bt end_time]|]; try apply R_refl.
  all: destruct (after _ _); try apply R_refl.
  exact (R_trans _ _ _ (R_suspend _ s) (IH _)).
Qed.

Lemma keeps_xread fuel a : keeps R (xread E fuel a).
Proof.
  unfold xread. apply keeps_bind.
  - intros s. rewrite xread_prepare_state. apply R_refl.
  - intros p. apply keeps_xread_poll.
Qed.

Lemma keeps_exec_loop run :
  (forall c a, keeps R (run c a)) -> forall q, keeps R (exec_loop run q).
Proof.
  intros Hrun. induction q as [|[c a] q IH]; cbn [exec_loop]; keep; auto.
Qed.

Lemma keeps_exec run a : (forall c a, keeps R (run c a)) -> keeps R (exec run a).
Proof. intros Hrun. unfold exec. keep. now apply keeps_exec_loop. Qed.

Lemma keeps_kls fuel run command kls :
  (forall c a, keeps R (run c a)) ->
  kls_map E fuel run command = Some kls -> forall a w, keeps R (kls a w).
Proof.
  intros Hrun. unfold kls_map.
  repeat match goal with
  | |- (if ?b then _ else _) = _ -> _ => destruct b
  end; intros [= <-] a w;
  auto using keeps_ping, keeps_echo, keeps_set, keeps_get,
    keeps_increment, keeps_xadd, keeps_xrange, keeps_xread,
    keeps_multi, keeps_exec, keeps_discard, keeps_config,
    keeps_keys, keeps_info, keeps_replconf, keeps_psync,
    keeps_wait, keeps_type.
Qed.

Lemma keeps_call fuel run c a w :
  (forall c a, keeps R (run c a)) ->
  keeps R (bind (get_command_kls E fuel run c) (fun kls => try_redis (kls a w))).
Proof.
  intros Hrun. unfold get_command_kls.
  destruct (kls_map E fuel run c) as [kls|] eqn:Hk.
  - apply keeps_bind_ret, keeps_try_redis.
    exact (keeps_kls _ _ _ _ Hrun Hk _ _).
  - intros s. apply R_refl.
Qed.

Lemma keeps__execute : forall fuel c a w t, keeps R (_execute E fuel c a w t).
Proof.
  induction fuel as [|fuel IH]; intros c a w t; cbn [_execute]; [apply keeps_lift|].
  assert (Hrun : forall c a, keeps R (_execute E fuel c a None true)) by (intros; apply IH).
  apply keeps_bind; [apply keeps_gets | intros q].
  destruct q as [queue|], t; try (apply keeps_call; exact Hrun).
  destruct (String.eqb c EXEC); [apply keeps_exec; exact Hrun|].
  destruct (String.eqb c DISCARD); [apply keeps_discard|].
  keep.
Qed.

Lemma keeps_encode v t : keeps R (encode v t).
Proof. unfold encode. keep. Qed.

Lemma keeps_execute fuel c a w t : keeps R (execute E fuel c a w t).
Proof. unfold execute. keep; [apply keeps__execute | apply keeps_encode]. Qed.

Lemma keeps_get_command arr : keeps R (get_command arr).
Proof. unfold get_command. keep. Qed.

Lemma keeps_handle_master_command fuel data w :
  keeps R (handle_master_command E fuel data w).
Proof.
  unfold handle_master_command. keep.
  - apply keeps_get_command.
  - apply keeps_execute.
Qed.

Section Replica.
Hypothesis R_bytes : forall n s, R s (with_bytes_processed n s).

Lemma keeps_replica_loop fuel p :
  forall cmds, keeps R (replica_loop E fuel p cmds).
Proof.
  induction cmds as [|[c n] cmds IH]; cbn [replica_loop]; keep; auto.
  - apply keeps_get_command.
  - apply keeps_execute.
  - apply keeps_modify. intros s. apply R_bytes.
Qed.

Lemma keeps_handle_replica fuel data p : keeps R (handle_replica E fuel data p).
Proof. unfold handle_replica. keep. apply keeps_replica_loop. Qed.

Lemma keeps_handle fuel data w p : keeps R (handle E fuel data w p).
Proof.
  unfold handle. keep; [apply keeps_handle_replica | apply keeps_handle_master_command].
Qed.

End Replica.
End Frame.

(** ** The codec: decoding what was encoded *)

Lemma sapp_assoc (a b c : string) : (a ++ b) ++ c = a ++ (b ++ c).
Proof.
  induction a as [|x a IH]; [reflexivity|].
  change (String x ((a ++ b) ++ c) = String x (a ++ b ++ c)). now f_equal.
Qed.

Lemma length_sapp (a b : string) :
  String.length (a ++ b) = (String.length a + String.length b)%nat.
Proof.
  induction a as [|x a IH]; [reflexivity|].
  change (S (String.length (a ++ b)) = S (String.length a + String.length b)). now f_equal.
Qed.

Lemma sdrop_sapp (a b : string) : sdrop (String.length a) (a ++ b) = b.
Proof. induction a as [|x a IH]; [reflexivity|]. exact IH. Qed.

Lemma stake_sapp (a b : string) : stake (String.length a) (a ++ b) = a.
Proof.
  induction a as [|x a IH]; [now destruct b|].
  change (String x (stake (String.length a) (a ++ b)) = String x a). now f_equal.
Qed.

Lemma read_line_digits (d : Decimal.uint) (r : string) :
  read_line (NilEmpty.string_of_uint d ++ CRLF ++ r) = Some (NilEmpty.string_of_uint d, r).
Proof.
  induction d as [|d IH|d IH|d IH|d IH|d IH|d IH|d IH|d IH|d IH|d IH];
    [reflexivity | ..]; simpl; simpl in IH; rewrite IH;
    destruct (NilEmpty.string_of_uint d); reflexivity.
Qed.

Lemma read_line_str_of_N (n : N) (r : string) :
  read_line (str_of_N n ++ CRLF ++ r) = Some (str_of_N n, r).
Proof.
  unfold str_of_N, NilZero.string_of_uint.
  destruct (N.to_uint n) eqn:H; try apply read_line_digits.
  now apply to_uint_nonnil in H.
Qed.

Lemma str_of_int_nat (n : nat) : str_of_int (Z.of_nat n) = str_of_N (N.of_nat n).
Proof. destruct n as [|n]; reflexivity. Qed.

(** A bulk string decodes to its payload, whatever bytes the payload
    holds, and leaves the rest of the buffer. *)
Lemma decode_bulk_string_roundtrip (a rest : string) :
  Codec.decode_string (Codec.encode_bulk_string (Some a) ++ rest) = Some (a, rest).
Proof.
  unfold Codec.encode_bulk_string, len. rewrite str_of_int_nat.
  rewrite !sapp_assoc.
  change ("$" ++ ?x) with (String "$" x).
  cbn [Codec.decode_string]. rewrite read_line_str_of_N, N_of_str_of_N, Nnat.Nat2N.id.
  rewrite sdrop_sapp, stake_sapp, length_sapp.
  change (stake 2 (CRLF ++ rest)) with CRLF. rewrite String.eqb_refl, andb_true_r.
  replace (String.length a + 2 <=? String.length a + String.length (CRLF ++ rest))%nat
    with true
    by (symmetry; apply Nat.leb_le;
        change (String.length (CRLF ++ rest)) with (S (S (String.length rest))); lia).
  replace (String.length a + 2)%nat with (String.length (a ++ CRLF))
    by (rewrite length_sapp; reflexivity).
  now rewrite <- (sapp_assoc a CRLF rest), sdrop_sapp.
Qed.

Lemma decode_elements_roundtrip (argv : list string) (rest : string) :
  Codec.decode_elements (List.length argv)
    (fold_right (fun a body => Codec.encode_bulk_string (Some a) ++ body) "" argv ++ rest)
  = Some (argv, rest).
Proof.
  induction argv as [|a argv IH]; [reflexivity|].
  cbn [List.length fold_right Codec.decode_elements].
  now rewrite sapp_assoc, decode_bulk_string_roundtrip, IH.
Qed.

Lemma decode_value_roundtrip (argv : list string) (rest : string) :
  Codec.decode_value (Codec.encode_command argv ++ rest) = Some (Codec.DList argv, rest).
Proof.
  unfold Codec.encode_command. rewrite str_of_int_nat, !sapp_assoc.
  change ("*" ++ ?x) with (String "*" x). cbn [Codec.decode_value].
  rewrite read_line_str_of_N, N_of_str_of_N, Nnat.Nat2N.id.
  now rewrite decode_elements_roundtrip.
Qed.

Lemma sapp_nil_r (a : string) : a ++ "" = a.
Proof.
  induction a as [|x a IH]; [reflexivity|].
  change (String x (a ++ "") = String x a). now f_equal.
Qed.

(** [decode] on the encoding of an argument list. *)
Lemma decode_cmd (argv : list string) :
  Codec.decode (Codec.encode_command argv)
  = Some (Codec.DList argv, len (Codec.encode_command argv)).
Proof.
  unfold Codec.decode.
  rewrite <- (sapp_nil_r (Codec.encode_command argv)) at 1.
  rewrite decode_value_roundtrip. unfold len. cbn [String.length].
  now rewrite Z.sub_0_r.
Qed.

(** X1 (codec round trip).  Decoding the frame that encodes an argument
    list gives the list back and leaves what follows the frame in the
    buffer untouched; [decode] reports the length of the frame as the
    bytes it processed. *)
Theorem decode_inverts_encode_command (argv : list string) (rest : string) :
  Codec.decode_value (Codec.encode_command argv ++ rest) = Some (Codec.DList argv, rest)
  /\ Codec.decode (Codec.encode_command argv)
     = Some (Codec.DList argv, len (Codec.encode_command argv)).
Proof.
  split; [apply decode_value_roundtrip|].
  unfold Codec.decode.
  rewrite <- (sapp_nil_r (Codec.encode_command argv)) at 1.
  rewrite decode_value_roundtrip. unfold len. cbn [String.length].
  now rewrite Z.sub_0_r.
Qed.

Lemma len_sapp (a b : string) : len (a ++ b) = len a + len b.
Proof. unfold len. rewrite length_sapp. lia. Qed.

Lemma encode_command_nonempty (argv : list string) :
  (1 <= String.length (Codec.encode_command argv))%nat.
Proof. unfold Codec.encode_command. change ("*" ++ ?x) with (String "*" x). cbn [String.length]. lia. Qed.

Lemma multi_go_roundtrip (cmds : list (list string)) :
  forall fuel, (List.length cmds <= fuel)%nat ->
  Codec.multi_go fuel (encode_commands cmds)
  = Some (map (fun argv => (Codec.DList argv, len (Codec.encode_command argv))) cmds).
Proof.
  induction cmds as [|argv cmds IH]; intros fuel Hf.
  - destruct fuel; reflexivity.
  - destruct fuel as [|fuel]; [cbn in Hf; lia|].
    cbn [encode_commands fold_right]. fold (encode_commands cmds).
    pose proof (encode_command_nonempty argv) as Hne.
    destruct (Codec.encode_command argv ++ encode_commands cmds) as [|c r] eqn:Hb.
    { apply (f_equal String.length) in Hb. rewrite length_sapp in Hb. cbn in Hb. lia. }
    cbn [Codec.multi_go]. rewrite <- Hb, decode_value_roundtrip, IH by (cbn in Hf; lia).
    cbn [map]. rewrite len_sapp. do 3 f_equal. lia.
Qed.

Lemma length_encode_commands (cmds : list (list string)) :
  (List.length cmds <= String.length (encode_commands cmds))%nat.
Proof.
  induction cmds as [|argv cmds IH]; [reflexivity|].
  cbn [encode_commands fold_right List.length]. fold (encode_commands cmds).
  rewrite length_sapp. pose proof (encode_command_nonempty argv). lia.
Qed.

(** X2 (batch round trip).  Frames sent back to back decode to the same
    commands in the same order, each with the length of its own frame. *)
Theorem multi_command_decoder_roundtrip (cmds : list (list string)) :
  Codec.multi_command_decoder (encode_commands cmds)
  = Some (map (fun argv => (Codec.DList argv, len (Codec.encode_command argv))) cmds).
Proof.
  unfold Codec.multi_command_decoder. apply multi_go_roundtrip, length_encode_commands.
Qed.

(** ** Dispatch, transactions and replication commands *)

Section Commands.
Variable E : env.

(** [handle_master_command] on the encoding of an argument list. *)
Lemma handle_cmd_eq fuel c args w s :
  handle_master_command E fuel (cmd (c :: args)) w s =
  if String.eqb (lower c) SET
  then match write_to_replicas (cmd (c :: args)) s with
       | (Ret _, s') => execute E fuel (lower c) (AList args) w false s'
       | (Exc e, s') => (Exc e, s')
       | (OutOfFuel, s') => (OutOfFuel, s')
       end
  else execute E fuel (lower c) (AList args) w false s.
Proof. apply (handle_master_command_eq E fuel _ w s c args _ (decode_cmd _)). Qed.

(** A [RedisException] raised inside a command function becomes an
    Error frame. *)
Lemma execute_command_error fuel command a w t s kls msg s1 :
  transaction_queue s = None \/ t = true ->
  kls_map E fuel (run_queued E fuel) command = Some kls ->
  kls a w s = (Exc (RedisException msg), s1) ->
  execute E (S fuel) command a w t s = (Ret (Some (Codec.encode_error msg)), s1).
Proof.
  intros Hq Hk Hr. rewrite execute_eq, (_execute_call E fuel command a w t s kls Hq Hk).
  unfold try_redis. now rewrite Hr.
Qed.

(** X3 (the verb is case-insensitive).  For every verb but SET the
    master handles a frame exactly as it handles the frame with the verb
    in lower case: same reply, same state.  (For SET the raw frame is
    what is forwarded, so the states differ in the forwarded bytes.) *)
Theorem verb_case_insensitive fuel c args w s :
  String.eqb (lower c) SET = false ->
  handle_master_command E fuel (cmd (c :: args)) w s
  = handle_master_command E fuel (cmd (lower c :: args)) w s.
Proof.
  intros H. rewrite !handle_cmd_eq, lower_idem, H. reflexivity.
Qed.

(** X4 (EXEC and DISCARD outside a transaction).  With no transaction
    open both are answered with the error frame [<VERB> without MULTI]
    and the state is unchanged. *)
Theorem exec_discard_without_multi fuel c name args w s :
  transaction_queue s = None ->
  In (lower c, name) [(EXEC, "EXEC"); (DISCARD, "DISCARD")] ->
  handle_master_command E (S fuel) (cmd (c :: args)) w s
  = (Ret (Some (Codec.encode_error (name ++ " without MULTI"))), s).
Proof.
  intros Hq [Hc|[Hc|[]]]; injection Hc as Hc <-; rewrite handle_cmd_eq, <- Hc.
  - change (String.eqb EXEC SET) with false. cbv iota.
    apply (execute_command_error fuel EXEC _ w false s
             (fun a _ => exec (run_queued E fuel) (elems a))); auto.
    unfold exec, bind, gets. now rewrite Hq.
  - change (String.eqb DISCARD SET) with false. cbv iota.
    apply (execute_command_error fuel DISCARD _ w false s (fun a _ => discard (elems a))); auto.
    unfold discard, bind, gets. now rewrite Hq.
Qed.

(** X5 (a SET that fails is forwarded all the same).  When [set] raises
    on its arguments, the exception leaves [handle_master_command], yet
    the frame has already been written to every replica and the offset
    has advanced by its length; nothing else changed. *)
Theorem failed_set_is_still_forwarded fuel c args w s o e :
  lower c = SET ->
  replication_offset s = Some o ->
  transaction_queue s = None ->
  (set args s).1 = Exc e ->
  let data := cmd (c :: args) in
  handle_master_command E (S fuel) data w s
  = (Exc e,
     with_offset (Some (o + len data))
       (with_event (EvBroadcast data)
          (with_registry (Registry.broadcast (connection_registry s) data) s))).
Proof.
  intros Hc Ho Hq He data. subst data. rewrite handle_cmd_eq, Hc.
  change (String.eqb SET SET) with true. cbv iota.
  unfold write_to_replicas. cbn [replication_offset with_event with_registry]. rewrite Ho.
  set (s1 := with_offset _ _). rewrite execute_eq.
  rewrite (_execute_call E fuel SET _ w false s1 (fun a _ => set (elems a)))
    by (auto || reflexivity).
  unfold try_redis. cbn [elems]. rewrite set_eq in *.
  destruct args as [|k [|v opts]]; cbn [fst] in He; try (injection He as <-; reflexivity).
  change (wall_clock s1) with (wall_clock s).
  destruct (set_options (wall_clock s) opts None) as [x|e'|] eqn:Hopt; cbn [fst] in He;
    try discriminate He.
  injection He as <-. destruct e'; try reflexivity.
  exfalso. exact (set_options_no_redis _ _ _ _ Hopt).
Qed.

Lemma handle_queued fuel argv w s q o :
  queueable argv = true ->
  transaction_queue s = Some q ->
  replication_offset s = Some o ->
  exists s',
    handle_master_command E (S fuel) (cmd argv) w s
    = (Ret (Some (Codec.encode_simple_string "QUEUED")), s')
    /\ db s' = db s
    /\ transaction_queue s' = Some (q ++ [queue_entry argv])%list
    /\ replication_offset s'
       = Some (o + if has_verb SET argv then len (cmd argv) else 0)
    /\ broadcasts (log s')
       = (broadcasts (log s) ++ if has_verb SET argv then [cmd argv] else [])%list.
Proof.
  intros Hv Hq Ho. destruct argv as [|c args]; [discriminate Hv|].
  cbn [queueable] in Hv. apply andb_true_iff in Hv. destruct Hv as [H1 H2].
  apply negb_true_iff in H1, H2. rewrite handle_cmd_eq. cbn [has_verb queue_entry].
  destruct (String.eqb (lower c) SET) eqn:Hs.
  - unfold write_to_replicas. cbn [replication_offset with_event with_registry]. rewrite Ho.
    rewrite execute_eq, (_execute_queued E fuel _ _ _ _ q) by (assumption || reflexivity).
    eexists. split; [reflexivity|]. cbn. rewrite broadcasts_app. repeat split; auto.
  - rewrite execute_eq, (_execute_queued E fuel _ _ _ _ q) by (assumption || reflexivity).
    eexists. split; [reflexivity|]. cbn. rewrite app_nil_r, Z.add_0_r. repeat split; auto.
Qed.

Lemma handle_all_queued fuel w frames :
  Forall (fun argv => queueable argv = true) frames ->
  forall s q o,
  transaction_queue s = Some q ->
  replication_offset s = Some o ->
  exists s',
    handle_all E (S fuel) frames w s
    = (Ret (map (fun _ => Some (Codec.encode_simple_string "QUEUED")) frames), s')
    /\ db s' = db s
    /\ transaction_queue s' = Some (q ++ map queue_entry frames)%list
    /\ is_Some (replication_offset s')
    /\ broadcasts (log s')
       = (broadcasts (log s) ++ map cmd (List.filter (has_verb SET) frames))%list.
Proof.
  induction 1 as [|argv frames Hv _ IH]; intros s q o Hq Ho.
  - exists s. cbn. rewrite !app_nil_r. repeat split; eauto.
  - destruct (handle_queued fuel argv w s q o Hv Hq Ho) as (s1 & H1 & Hd1 & Hq1 & Ho1 & Hb1).
    destruct (IH s1 _ _ Hq1 Ho1) as (s2 & H2 & Hd2 & Hq2 & Ho2 & Hb2).
    exists s2. cbn [handle_all]. unfold bind at 1. rewrite H1. unfold bind at 1. rewrite H2.
    split; [reflexivity|]. split; [congruence|].
    split; [rewrite Hq2; cbn [map]; now rewrite <- app_assoc|].
    split; [exact Ho2|].
    rewrite Hb2, Hb1. cbn [List.filter map].
    destruct (has_verb SET argv); cbn [map]; now rewrite <- app_assoc.
Qed.

(** X6 (DISCARD).  In an open transaction, after any frames that are
    queued, DISCARD replies OK, closes the transaction and leaves the
    keyspace as it was; the SET frames among the queued ones have been
    forwarded to the replicas nonetheless, in order. *)
Theorem discard_drops_queue_not_forwards fuel w frames c args s q o :
  Forall (fun argv => queueable argv = true) frames ->
  lower c = DISCARD ->
  transaction_queue s = Some q ->
  replication_offset s = Some o ->
  let r := bind (handle_all E (S fuel) frames w)
             (fun _ => handle_master_command E (S fuel) (cmd (c :: args)) w) s in
  r.1 = Ret (Some (Codec.encode_simple_string "OK"))
  /\ db r.2 = db s
  /\ transaction_queue r.2 = None
  /\ broadcasts (log r.2)
     = (broadcasts (log s) ++ map cmd (List.filter (has_verb SET) frames))%list.
Proof.
  intros HF Hc Hq Ho r.
  destruct (handle_all_queued fuel w frames HF s q o Hq Ho) as (s1 & H1 & Hd & Hq1 & Ho1 & Hb).
  assert (Hr : r = (Ret (Some (Codec.encode_simple_string "OK")), with_queue None s1)).
  { subst r. unfold bind at 1. rewrite H1, handle_cmd_eq, Hc.
    change (String.eqb DISCARD SET) with false. cbv iota.
    rewrite execute_eq. cbn [_execute]. unfold bind at 1, gets at 1. rewrite Hq1.
    change (String.eqb DISCARD EXEC) with false.
    change (String.eqb DISCARD DISCARD) with true.
    cbv iota. unfold discard, bind at 1, gets at 1. rewrite Hq1. reflexivity. }
  rewrite Hr. cbn. repeat split; auto.
Qed.



(** X8 (REPLCONF).  Without a subcommand REPLCONF is an error frame;
    GETACK is answered with [REPLCONF ACK <bytes_processed>]; ACK n
    records n as the offset acknowledged by the writer's replica and has
    no reply at all, and ACK without a number raises [IndexError]; every
    other subcommand is answered OK.  The subcommand is case-insensitive. *)
Theorem replconf_replies fuel c args w s :
  lower c = REPLCONF ->
  transaction_queue s = None ->
  let r := handle_master_command E (S fuel) (cmd (c :: args)) w s in
  match args with
  | [] =>
      r = (Ret (Some (Codec.encode_error "Currently, REPLCONF command expects subcommand")), s)
  | sub :: rest =>
      if String.eqb (lower sub) "getack" then
        r = (Ret (Some (cmd ["REPLCONF"; "ACK"; str_of_int (bytes_processed s)])), s)
      else if String.eqb (lower sub) "ack" then
        match rest with
        | [] => r = (Exc IndexError, s)
        | n :: _ =>
            match int_of_str n with
            | Some z =>
                r = (Ret None,
                     with_registry
                       (Registry.update_replica_offset (connection_registry s) w z) s)
            | None => True
            end
        end
      else r = (Ret (Some (Codec.encode_simple_string "OK")), s)
  end.
Proof.
  intros Hc Hq r. subst r. rewrite handle_cmd_eq, Hc.
  change (String.eqb REPLCONF SET) with false. cbv iota. rewrite execute_eq.
  rewrite (_execute_call E fuel REPLCONF _ w false s (fun a w => replconf (elems a) w))
    by (auto || reflexivity).
  cbn [elems]. unfold try_redis, replconf.
  destruct args as [|sub rest]; [reflexivity|].
  destruct (String.eqb (lower sub) "getack").
  { unfold replconf_getack, bind, gets, reply, ret, encode, encode_array_m.
    rewrite encode_command_array. reflexivity. }
  destruct (String.eqb (lower sub) "ack"); [|reflexivity].
  change (drop 1 (sub :: rest)) with rest. destruct rest as [|n rest]; [reflexivity|].
  unfold replconf_ack, item. change ((n :: rest) !! 0%nat) with (Some n).
  unfold bind, ret, raise, modify, py_int. destruct (int_of_str n); [reflexivity | exact I].
Qed.

(** X9 (PSYNC).  PSYNC replies [FULLRESYNC <replid> <offset>] followed
    by the empty RDB file and registers the writer as a replica at the
    current offset; the next SET is forwarded to the new replica as well
    as to the older ones. *)
Theorem psync_registers_replica fuel c args c' args' w w' s o :
  lower c = PSYNC -> lower c' = SET ->
  transaction_queue s = None ->
  replication_offset s = Some o ->
  let r := handle_master_command E (S fuel) (cmd (c :: args)) w s in
  let data := cmd (c' :: args') in
  let r' := handle_master_command E (S fuel) data w' r.2 in
  r.1 = Ret (Some (Codec.encode_simple_string
                     ("FULLRESYNC " ++ fmt_str (replication_id s) ++ " " ++ str_of_int o)
                   ++ Codec.encode_file empty_rdb))
  /\ connection_registry r.2
     = (connection_registry s
        ++ [Registry.mkReplica w (replication_id s) (Some o) []])%list
  /\ connection_registry r'.2
     = (Registry.broadcast (connection_registry s) data
        ++ [Registry.mkReplica w (replication_id s) (Some o) [data]])%list.
Proof.
  intros Hc Hc' Hq Ho r data r'.
  assert (Hr : r = (Ret (Some (Codec.encode_simple_string
                     ("FULLRESYNC " ++ fmt_str (replication_id s) ++ " " ++ str_of_int o)
                   ++ Codec.encode_file empty_rdb)),
                    with_registry (Registry.add_replica (connection_registry s) w
                                     (replication_id s) (Some o)) s)).
  { subst r. rewrite handle_cmd_eq, Hc. change (String.eqb PSYNC SET) with false. cbv iota.
    rewrite execute_eq.
    rewrite (_execute_call E fuel PSYNC _ w false s (fun a w => psync (elems a) w))
      by (auto || reflexivity).
    unfold try_redis, psync, bind, gets, modify, ret. rewrite Ho. reflexivity. }
  split; [now rewrite Hr|]. split; [now rewrite Hr|].
  subst r'. rewrite Hr. cbn [snd]. subst data.
  rewrite handle_cmd_eq, Hc'. change (String.eqb SET SET) with true. cbv iota.
  unfold write_to_replicas. cbn [replication_offset with_event with_registry]. rewrite Ho.
  set (s2 := with_offset _ _). rewrite execute_state.
  rewrite (_execute_call E fuel SET _ w' false s2 (fun a _ => set (elems a)))
    by (auto || reflexivity).
  unfold try_redis. cbn [elems].
  pose proof (set_unforwarded args' s2) as (_ & Hreg & _).
  assert (H2 : connection_registry s2
               = (Registry.broadcast (connection_registry s) (cmd (c' :: args'))
                  ++ [Registry.mkReplica w (replication_id s) (Some o)
                        [cmd (c' :: args')]])%list).
  { subst s2. cbn. unfold Registry.add_replica, Registry.broadcast. now rewrite map_app. }
  destruct (set args' s2) as [[x|[]|] s3]; cbn [snd] in *; congruence.
Qed.

End Commands.

(** ** SET, GET and INCR *)

Lemma int_of_str_of_int (z : Z) : int_of_str (str_of_int z) = Some z.
Proof.
  unfold int_of_str, str_of_int.
  assert (H : NilZero.int_of_string (NilZero.string_of_int (Z.to_int z)) = Some (Z.to_int z)).
  { apply NilZero.isi.
    - destruct z as [|p|p]; try discriminate. cbn. intros [= H].
      now apply DecimalPos.Unsigned.to_uint_nonnil in H.
    - destruct z as [|p|p]; try discriminate. cbn. intros [= H].
      now apply DecimalPos.Unsigned.to_uint_nonnil in H. }
  destruct (NilZero.string_of_int (Z.to_int z)) as [|c r] eqn:Hs.
  - rewrite H. now rewrite DecimalZ.of_to.
  - assert (Hc : c <> "+"%char).
    { intros ->. unfold NilZero.int_of_string in H. cbn in H.
      destruct (NilEmpty.uint_of_string r); discriminate H. }
    destruct c as [[] [] [] [] [] [] [] []]; try (rewrite H; now rewrite DecimalZ.of_to).
    now destruct Hc.
Qed.




Lemma db_get_after_set (s : state) (key value : string) e :
  let s' := with_event e (with_db (Db.set (db s) key value None) s) in
  db_get key s' = (Ret (Some (Db.VString value)), with_db (db s') s').
Proof.
  cbv zeta. unfold db_get, Db.get, Db.expired. cbn.
  rewrite lookup_delete_eq, lookup_insert_eq. reflexivity.
Qed.

(** What [increment] does, by what the key holds. *)
Lemma increment_eq key rest s :
  increment (key :: rest) s =
  let stored n s1 :=
    (Ret (Some (PInt (n + 1), Some INTEGER)),
     with_event (EvDbSet key (str_of_int (n + 1)))
       (with_db (Db.set (db s1) key (str_of_int (n + 1)) None) s1)) in
  match db_get key s with
  | (Ret None, s1) => stored 0 s1
  | (Ret (Some (Db.VString x)), s1) =>
      match int_of_str x with
      | Some n => stored n s1
      | None => (Exc (RedisException "value is not an integer or out of range"), s1)
      end
  | (Ret (Some (Db.VStream _)), s1) => (Exc TypeError, s1)
  | (Exc e, s1) => (Exc e, s1)
  | (OutOfFuel, s1) => (OutOfFuel, s1)
  end.
Proof.
  unfold increment, bind at 1, item. change ((key :: rest) !! 0%nat) with (Some key).
  unfold ret at 1. unfold bind at 1.
  destruct (db_get key s) as [[[[x|es]|]|e|] s1]; try reflexivity.
  unfold bind at 1. destruct (int_of_str x); reflexivity.
Qed.

(** X11 (INCR).  On a key that holds the integer n, or on an absent key
    (n = 0), INCR replies n + 1 and the key then holds n + 1. *)
Theorem incr_adds_one key rest s n :
  stored_int s key = Some n ->
  let r := increment (key :: rest) s in
  r.1 = Ret (Some (PInt (n + 1), Some INTEGER))
  /\ stored_int r.2 key = Some (n + 1).
Proof.
  intros H r. subst r. rewrite increment_eq. unfold stored_int in *. cbv zeta.
  destruct (db_get key s) as [[[[x|es]|]|e|] s1]; cbn [fst] in H; try discriminate H.
  - rewrite H. cbn [fst snd]. split; [reflexivity|].
    rewrite db_get_after_set. cbn [fst]. apply int_of_str_of_int.
  - injection H as <-. cbn [fst snd]. split; [reflexivity|].
    rewrite db_get_after_set. cbn [fst]. apply int_of_str_of_int.
Qed.

Section Incr.
Variable E : env.

(** X12 (INCR on a text).  On a key that holds a text that is no decimal
    literal, INCR is answered with the error frame [value is not an
    integer or out of range] and the value is left as it was. *)
Theorem incr_rejects_non_integer fuel c key rest w s x s1 :
  lower c = INCR ->
  transaction_queue s = None ->
  db_get key s = (Ret (Some (Db.VString x)), s1) ->
  plain_literal x = true ->
  int_of_str x = None ->
  handle_master_command E (S fuel) (cmd (c :: key :: rest)) w s
  = (Ret (Some (Codec.encode_error "value is not an integer or out of range")), s1).
Proof.
  intros Hc Hq Hg _ Hx. rewrite handle_cmd_eq, Hc. change (String.eqb INCR SET) with false.
  cbv iota.
  apply (execute_command_error E fuel INCR _ w false s (fun a _ => increment (elems a)));
    auto.
  cbn [elems]. now rewrite increment_eq, Hg, Hx.
Qed.

End Incr.

Lemma get_eq key rest s :
  get (key :: rest) s
  = (Ret (Some (value_to_py (Db.get (db s) key (wall_clock s)).1, Some BULK_STRING)),
     with_db (Db.get (db s) key (wall_clock s)).2 s).
Proof.
  unfold get, bind at 1, item. change ((key :: rest) !! 0%nat) with (Some key).
  unfold ret at 1. unfold bind, db_get, reply, ret.
  destruct (Db.get (db s) key (wall_clock s)); reflexivity.
Qed.

(** X13 (GET after SET).  A GET at time [t] of a key just SET finds the
    value as long as [t] is not past the expiry that SET computed; past
    it the reply is the null bulk string and the key is gone. *)
Theorem get_after_set key value opts rest s e t :
  set_options (wall_clock s) opts None = Ret e ->
  let s1 := (set (key :: value :: opts) s).2 in
  let r := get (key :: rest) (with_wall_clock t s1) in
  if match e with Some x => x <? t | None => false end
  then r.1 = Ret (Some (PNone, Some BULK_STRING)) /\ Db.data (db r.2) !! key = None
  else r.1 = Ret (Some (PStr value, Some BULK_STRING)).
Proof.
  intros He s1 r. subst r s1. rewrite set_eq, He. cbn [snd]. rewrite get_eq.
  unfold Db.get, Db.expired. cbn.
  destruct e as [x|].
  - rewrite lookup_insert_eq. destruct (x <? t); cbn.
    + split; [reflexivity|]. apply lookup_delete_eq.
    + now rewrite lookup_insert_eq.
  - rewrite lookup_delete_eq. cbn. now rewrite lookup_insert_eq.
Qed.

(** ** The polling loops of XREAD and WAIT *)

Section Loops.
Variable E : env.

(** X14 (XREAD wants the word in lower case).  The test for [streams]
    is made on the arguments as sent, before they are lowered: without
    the literal word [streams] XREAD is answered with an error frame,
    [STREAMS] included. *)
Theorem xread_requires_lowercase_streams fuel c args w s :
  lower c = XREAD ->
  transaction_queue s = None ->
  ~ In "streams" args ->
  handle_master_command E (S fuel) (cmd (c :: args)) w s
  = (Ret (Some (Codec.encode_error "Invalid arguments. Expected streams in argument list")),
     s).
Proof.
  intros Hc Hq Hn. rewrite handle_cmd_eq, Hc. change (String.eqb XREAD SET) with false.
  cbv iota.
  apply (execute_command_error E fuel XREAD _ w false s (fun a _ => xread E fuel a)); auto.
  rewrite xread_eq. unfold xread_parse.
  destruct (existsb (String.eqb "streams") args) eqn:He; [|reflexivity].
  apply existsb_exists in He. destruct He as (x & Hin & Hx).
  apply String.eqb_eq in Hx. subst x. now destruct Hn.
Qed.

Lemma xread_parse_no_block args clock d ks starts block :
  index_of "block" (map lower args) = None ->
  xread_parse (AList args) clock d = Ret (ks, starts, block) -> block = None.
Proof.
  intros Hb. unfold xread_parse. destruct (negb _); [discriminate|]. cbv zeta.
  destruct (index_of "streams" (map lower args)); [|discriminate]. rewrite Hb. cbn [rbind].
  destruct (negb _); [discriminate|].
  destruct (resolve_starts _ _ _ _); try discriminate. cbn [rbind]. now intros [= _ _ <-].
Qed.

Lemma resolve_starts_returns d ks :
  forall r n, resolve_starts d ks n r <> OutOfFuel.
Proof.
  induction r as [|v r IH]; intros n; [discriminate|]. cbn [resolve_starts].
  match goal with |- rbind ?x _ <> _ => destruct x eqn:Hx end; cbn [rbind];
    try discriminate.
  - specialize (IH (S n)). destruct (resolve_starts _ _ _ _); cbn [rbind];
      try discriminate. now destruct IH.
  - exfalso. destruct (String.eqb v "$"); [|discriminate Hx].
    destruct (ks !! n) as [k|]; [|discriminate Hx].
    destruct (Db.data d !! k) as [[|es]|]; try discriminate Hx.
    destruct (Db.max_id (map fst es)); discriminate Hx.
Qed.

Lemma xread_collect_returns d :
  forall ks starts, xread_collect d ks starts <> OutOfFuel.
Proof.
  induction ks as [|k ks IH]; intros starts; [discriminate|].
  destruct starts as [|i starts]; [discriminate|]. cbn [xread_collect].
  destruct (Db.get_range_stream d k i None); [|discriminate].
  specialize (IH starts). destruct (xread_collect d ks starts); try discriminate.
  now destruct IH.
Qed.

Lemma xread_parse_returns a clock d : xread_parse a clock d <> OutOfFuel.
Proof.
  destruct a as [args|x]; [|discriminate]. unfold xread_parse.
  destruct (negb _); [discriminate|]. cbv zeta.
  destruct (index_of "streams" (map lower args)); [|discriminate].
  match goal with |- rbind ?b _ <> _ => assert (Hb : b <> OutOfFuel) end.
  { destruct (index_of "block" (map lower args)); [|discriminate].
    destruct (_ !! _); [|discriminate]. destruct (int_of_str _); [|discriminate].
    destruct (_ <? 0); discriminate. }
  match goal with |- rbind ?b _ <> _ => destruct b end; cbn [rbind]; try discriminate.
  - destruct (negb _); [discriminate|].
    match goal with |- rbind ?r _ <> _ => pose proof (resolve_starts_returns d
      (take (List.length (drop (S n) (map lower args)) / 2) (drop (S n) (map lower args)))
      (drop (List.length (drop (S n) (map lower args)) / 2) (drop (S n) (map lower args)))
      0%nat) as Hr end.
    destruct (resolve_starts _ _ _ _); cbn [rbind]; try discriminate. now destruct Hr.
  - now destruct Hb.
Qed.

Lemma xread_poll_no_block E' f ks starts s :
  xread_poll E' f ks starts None s
  = match xread_collect (db s) ks starts with
    | Ret (x :: l) => (Ret (Some (PList (x :: l), Some ARRAY)), s)
    | Ret [] => (Ret (Some (PNone, Some BULK_STRING)), s)
    | Exc e => (Exc e, s)
    | OutOfFuel => (OutOfFuel, s)
    end.
Proof.
  destruct f; cbn [xread_poll];
    destruct (xread_collect (db s) ks starts) as [[|x l]| |]; reflexivity.
Qed.

(** X15 (XREAD without BLOCK).  Without BLOCK, XREAD never sleeps: its
    outcome is that of a run that is given no step at all in an
    environment where nothing happens, and the state is unchanged. *)
Theorem xread_without_block_returns_at_once fuel args s :
  index_of "block" (map lower args) = None ->
  xread E fuel (AList args) s = xread idle_env 0 (AList args) s
  /\ (xread E fuel (AList args) s).2 = s
  /\ (xread E fuel (AList args) s).1 <> OutOfFuel.
Proof.
  intros Hb. rewrite !xread_eq.
  pose proof (xread_parse_returns (AList args) (loop_clock s) (db s)) as Hp0.
  destruct (xread_parse (AList args) (loop_clock s) (db s)) as [[[ks starts] block]|e|] eqn:Hp.
  - rewrite (xread_parse_no_block _ _ _ _ _ _ Hb Hp), !xread_poll_no_block.
    split; [reflexivity|].
    pose proof (xread_collect_returns (db s) ks starts) as Hc.
    destruct (xread_collect (db s) ks starts) as [[|x l]| |]; split;
      try reflexivity; try discriminate. now destruct Hc.
  - split; [reflexivity|]. split; [reflexivity | discriminate].
  - now destruct Hp0.
Qed.

Lemma xread_poll_forever ks starts bt :
  (forall d s, no_data ks starts s -> no_data ks starts (suspend E d s)) ->
  forall fuel s, no_data ks starts s ->
  (xread_poll E fuel ks starts (Some (bt, Infinity)) s).1 = OutOfFuel.
Proof.
  intros HE. induction fuel as [|fuel IH]; intros s Hs; cbn [xread_poll];
    rewrite Hs; cbn [after]; [reflexivity|].
  apply IH, HE, Hs.
Qed.

(** X16 (XREAD BLOCK 0).  With a block time of 0 there is no deadline:
    as long as no entry arrives during the sleeps, XREAD goes on
    sleeping, however many polls it is given. *)
Theorem xread_block_zero_never_times_out fuel t ks ids starts s :
  int_of_str (lower t) = Some 0 ->
  List.length ks = List.length ids ->
  resolve_starts (db s) (map lower ks) 0 (map lower ids) = Ret starts ->
  no_data (map lower ks) starts s ->
  (forall d s, no_data (map lower ks) starts s ->
               no_data (map lower ks) starts (suspend E d s)) ->
  (xread E fuel (AList ("block" :: t :: "streams" :: ks ++ ids)%list) s).1 = OutOfFuel.
Proof.
  intros Ht Hlen Hr Hs HE. rewrite xread_eq.
  rewrite (xread_parse_block_first t 0 ks ids _ _ Ht) by (lia || assumption).
  rewrite Hr. cbn [rbind]. change (0 =? 0) with true. cbv iota.
  now apply xread_poll_forever.
Qed.

Lemma xread_poll_returns ks starts bt end_time :
  clock_advances E ->
  forall fuel s,
  (end_time - loop_clock s < inject_Z (Z.of_nat fuel) * (2 # 10))%Q ->
  (xread_poll E fuel ks starts (Some (bt, Finite end_time)) s).1 <> OutOfFuel.
Proof.
  intros HE. induction fuel as [|fuel IH]; intros s Hs; cbn [xread_poll];
    pose proof (xread_collect_returns (db s) ks starts) as Hc;
    destruct (xread_collect (db s) ks starts) as [[|x l]| |]; try discriminate;
    try (now destruct Hc); cbn [after].
  - destruct (Qle_bool (loop_clock s) end_time) eqn:Hle; [|discriminate].
    apply Qle_bool_iff in Hle. exfalso.
    change (inject_Z (Z.of_nat 0)) with 0%Q in Hs. lra.
  - destruct (Qle_bool (loop_clock s) end_time) eqn:Hle; [|discriminate]. cbn [negb].
    apply IH. specialize (HE (2 # 10)%Q s).
    rewrite Nat2Z.inj_succ in Hs. unfold Z.succ in Hs. rewrite inject_Z_plus in Hs.
    change (inject_Z 1) with 1%Q in Hs. lra.
Qed.

(** X17 (XREAD BLOCK t).  With a positive block time t, and a clock that
    advances by the time slept, XREAD ends within [5 * (t / 1000) + 1]
    sleeps of 200 ms. *)
Theorem xread_block_returns fuel t bt ks ids s :
  clock_advances E ->
  int_of_str (lower t) = Some bt -> 0 < bt ->
  List.length ks = List.length ids ->
  (5 * (bt / 1000) < Z.of_nat fuel) ->
  (xread E fuel (AList ("block" :: t :: "streams" :: ks ++ ids)%list) s).1 <> OutOfFuel.
Proof.
  intros HE Ht Hbt Hlen Hf. rewrite xread_eq.
  rewrite (xread_parse_block_first t bt ks ids _ _ Ht) by (lia || assumption).
  pose proof (resolve_starts_returns (db s) (map lower ks) (map lower ids) 0%nat) as Hr.
  destruct (resolve_starts _ _ _ _) as [starts|e|]; cbn [rbind]; try discriminate;
    [|now destruct Hr].
  destruct (Z.eqb_spec bt 0) as [->|_]; [lia|].
  apply xread_poll_returns; [exact HE|].
  assert (H : (inject_Z (5 * (bt / 1000)) < inject_Z (Z.of_nat fuel))%Q)
    by now rewrite <- Zlt_Qlt.
  rewrite inject_Z_mult in H. change (inject_Z 5) with 5%Q in H. lra.
Qed.

(** X18 (XREAD, the arguments after [streams]).  Without BLOCK, an odd
    number of arguments after [streams] raises the RedisException
    [The number of stream keys must match the number of start IDs.]
    and the state is unchanged. *)
Theorem xread_rejects_odd_tail fuel args s i :
  In "streams" args ->
  index_of "streams" (map lower args) = Some i ->
  index_of "block" (map lower args) = None ->
  Nat.odd (List.length args - S i) = true ->
  xread E fuel (AList args) s
  = (Exc (RedisException
       "The number of stream keys must match the number of start IDs."), s).
Proof.
  intros Hin Hi Hb Hodd.
  assert (He : existsb (String.eqb "streams") args = true).
  { apply existsb_exists. exists "streams". split; [exact Hin | reflexivity]. }
  rewrite xread_eq. unfold xread_parse. rewrite He, Hi, Hb. cbn [negb rbind].
  cbv zeta. rewrite length_drop, length_map.
  replace (Nat.eqb ((List.length args - S i) mod 2) 0) with false; [reflexivity|].
  symmetry. apply Nat.eqb_neq. rewrite Nat.odd_spec in Hodd. destruct Hodd as [m Hm].
  rewrite Hm. replace (2 * m + 1)%nat with (1 + m * 2)%nat by lia.
  rewrite Nat.Div0.mod_add. discriminate.
Qed.

(** X19 (XREAD, a negative block time).  A negative number after BLOCK
    raises the RedisException [Block time must be a non-negative
    integer.] before the keys and IDs are looked at. *)
Theorem xread_rejects_negative_block fuel args s i b t z :
  In "streams" args ->
  index_of "streams" (map lower args) = Some i ->
  index_of "block" (map lower args) = Some b ->
  map lower args !! S b = Some t ->
  int_of_str t = Some z -> z < 0 ->
  xread E fuel (AList args) s
  = (Exc (RedisException "Block time must be a non-negative integer."), s).
Proof.
  intros Hin Hi Hb Ht Hz Hneg.
  assert (He : existsb (String.eqb "streams") args = true).
  { apply existsb_exists. exists "streams". split; [exact Hin | reflexivity]. }
  rewrite xread_eq. unfold xread_parse.
  rewrite He, Hi, Hb. cbn [negb]. cbv zeta. rewrite Ht, Hz.
  destruct (Z.ltb_spec z 0); [reflexivity | lia].
Qed.

Lemma wait_poll_result target required end_time :
  forall fuel s r s',
  wait_poll E fuel target required end_time s = (Ret r, s') ->
  r = Some (PInt (Registry.check_replica_sync (connection_registry s') target),
            Some INTEGER).
Proof.
  induction fuel as [|fuel IH]; intros s r s'; cbn [wait_poll].
  all: destruct (_ <=? _); [now intros [= <- <-]|].
  all: destruct (Qle_bool _ _); [now intros [= <- <-]|].
  - discriminate.
  - apply IH.
Qed.

Lemma wait_poll_returns target required end_time :
  clock_advances E ->
  forall fuel s,
  (end_time - loop_clock s <= inject_Z (Z.of_nat fuel) * (1 # 10))%Q ->
  exists r s', wait_poll E fuel target required end_time s = (Ret r, s').
Proof.
  intros HE. induction fuel as [|fuel IH]; intros s Hs; cbn [wait_poll].
  all: destruct (_ <=? _); [eauto|].
  all: destruct (Qle_bool end_time (loop_clock s)) eqn:Hle; [eauto|].
  all: assert (Hlt : ~ (end_time <= loop_clock s)%Q)
    by (intros H; apply Qle_bool_iff in H; congruence).
  - exfalso. change (inject_Z (Z.of_nat 0)) with 0%Q in Hs. lra.
  - apply IH.
    rewrite Nat2Z.inj_succ in Hs. unfold Z.succ in Hs. rewrite inject_Z_plus in Hs.
    change (inject_Z 1) with 1%Q in Hs.
    destruct (Qle_bool (1 # 10) (end_time - loop_clock s)) eqn:Hmin.
    + specialize (HE (1 # 10)%Q s). lra.
    + specialize (HE (end_time - loop_clock s)%Q s).
      assert (0 <= inject_Z (Z.of_nat fuel))%Q.
      { change 0%Q with (inject_Z 0). rewrite <- Zle_Qle. lia. }
      lra.
Qed.

Lemma wait_eq fuel n t rest s required timeout :
  int_of_str n = Some required -> int_of_str t = Some timeout ->
  wait E fuel (n :: t :: rest) s
  = match replication_offset s with
    | Some 0 =>
        (Ret (Some (PInt (Z.of_nat (List.length (connection_registry s))),
                    Some INTEGER)), s)
    | Some o =>
        wait_poll E fuel o required (loop_clock s + inject_Z timeout / 1000)%Q
          (with_offset (Some (o + 37))
             (with_event (EvBroadcast GETACK_FRAME)
                (with_registry
                   (Registry.broadcast (connection_registry s) GETACK_FRAME) s)))
    | None =>
        (Exc TypeError,
         with_event (EvBroadcast GETACK_FRAME)
           (with_registry
              (Registry.broadcast (connection_registry s) GETACK_FRAME) s))
    end.
Proof.
  intros Hn Ht. unfold wait, item.
  change ((n :: t :: rest) !! 0%nat) with (Some n).
  change ((n :: t :: rest) !! 1%nat) with (Some t).
  change (encode_array_m (pstrs ["REPLCONF"; "GETACK"; "*"])) with (ret GETACK_FRAME).
  cbv [bind ret py_int]. rewrite Hn. cbv [bind ret py_int]. rewrite Ht.
  cbv [bind ret gets reply raise write_to_replicas].
  destruct (replication_offset s) as [[|p|p]|] eqn:Ho;
    cbn [replication_offset with_event with_registry]; rewrite ?Ho; reflexivity.
Qed.

(** X20 (WAIT before any write).  While the offset is 0, WAIT replies
    with the number of registered replicas at once, whatever number was
    asked for, sends nothing and leaves the state unchanged. *)
Theorem wait_with_zero_offset fuel c n t rest w s required timeout :
  lower c = WAIT ->
  transaction_queue s = None ->
  replication_offset s = Some 0 ->
  int_of_str n = Some required -> int_of_str t = Some timeout ->
  handle_master_command E (S fuel) (cmd (c :: n :: t :: rest)) w s
  = (Ret (Some (Codec.encode_integer (Z.of_nat (List.length (connection_registry s))))), s).
Proof.
  intros Hc Hq Ho Hn Ht. rewrite handle_cmd_eq, Hc. change (String.eqb WAIT SET) with false.
  cbv iota. rewrite execute_eq.
  rewrite (_execute_call E fuel WAIT _ w false s (fun a _ => wait E fuel (elems a)))
    by (auto || reflexivity).
  cbn [elems]. unfold try_redis.
  rewrite (wait_eq fuel n t rest s required timeout Hn Ht), Ho. reflexivity.
Qed.

(** X21 (WAIT after a write).  With a non-zero offset, and a clock that
    advances by the time slept, WAIT returns within [timeout / 100]
    sleeps, and its reply is the number of replicas whose acknowledged
    offset has reached the offset WAIT found on entry (the GETACK it
    sends is not counted in). *)
Theorem wait_counts_acks_of_entry_offset fuel n t rest s required timeout o :
  clock_advances E ->
  replication_offset s = Some o -> o <> 0 ->
  int_of_str n = Some required -> int_of_str t = Some timeout ->
  (timeout <= 100 * Z.of_nat fuel) ->
  let r := wait E fuel (n :: t :: rest) s in
  r.1 = Ret (Some (PInt (Registry.check_replica_sync (connection_registry r.2) o),
                   Some INTEGER)).
Proof.
  intros HE Ho Hnz Hn Ht Hf r. subst r.
  rewrite (wait_eq fuel n t rest s required timeout Hn Ht), Ho.
  set (entered := with_offset _ _).
  set (end_time := (loop_clock s + inject_Z timeout / 1000)%Q).
  assert (Hw : exists r s', wait_poll E fuel o required end_time entered = (Ret r, s')).
  { apply wait_poll_returns; [exact HE|].
    change (loop_clock entered) with (loop_clock s). subst end_time.
    assert (H : (inject_Z timeout <= inject_Z (100 * Z.of_nat fuel))%Q)
      by now rewrite <- Zle_Qle.
    rewrite inject_Z_mult in H. change (inject_Z 100) with 100%Q in H.
    unfold Qdiv. change (/ 1000)%Q with (1 # 1000)%Q. lra. }
  destruct Hw as (r & s' & Hr).
  destruct o as [|p|p]; [now destruct Hnz | |];
    now rewrite Hr, (wait_poll_result _ _ _ _ _ _ _ Hr).
Qed.

End Loops.

(** ** Commands without their argument *)

Section Arity.
Variable E : env.

(** X22 (a command without its argument).  ECHO, GET, INCR, TYPE, XADD,
    XRANGE, CONFIG and WAIT sent without any argument are not answered
    with an error frame: the [IndexError] leaves the handler, with the
    state unchanged. *)
Theorem missing_argument_escapes fuel c w s :
  In (lower c) needs_argument ->
  transaction_queue s = None ->
  handle_master_command E (S fuel) (cmd [c]) w s = (Exc IndexError, s).
Proof.
  intros Hin Hq. rewrite handle_cmd_eq.
  unfold needs_argument in Hin. cbn [In] in Hin.
  destruct Hin as [H|[H|[H|[H|[H|[H|[H|[H|[]]]]]]]]]; rewrite <- H;
    match goal with
    | |- context [String.eqb ?v SET] => change (String.eqb v SET) with false
    end; cbv iota; rewrite execute_eq.
  - rewrite (_execute_call E fuel ECHO _ w false s (fun a _ => echo (elems a)))
      by (auto || reflexivity). reflexivity.
  - rewrite (_execute_call E fuel GET _ w false s (fun a _ => get (elems a)))
      by (auto || reflexivity). reflexivity.
  - rewrite (_execute_call E fuel INCR _ w false s (fun a _ => increment (elems a)))
      by (auto || reflexivity). reflexivity.
  - rewrite (_execute_call E fuel TYPE _ w false s (fun a _ => type (elems a)))
      by (auto || reflexivity). reflexivity.
  - rewrite (_execute_call E fuel XADD _ w false s (fun a _ => xadd (elems a)))
      by (auto || reflexivity). reflexivity.
  - rewrite (_execute_call E fuel XRANGE _ w false s (fun a _ => xrange (elems a)))
      by (auto || reflexivity). reflexivity.
  - rewrite (_execute_call E fuel CONFIG _ w false s (fun a _ => config E (elems a)))
      by (auto || reflexivity). reflexivity.
  - rewrite (_execute_call E fuel WAIT _ w false s (fun a _ => wait E fuel (elems a)))
      by (auto || reflexivity). reflexivity.
Qed.

End Arity.

(** ** Invariants of the handler, and the replica loop *)

Section Invariants.
Variable E : env.

Lemma len_nonneg (x : string) : 0 <= len x.
Proof. unfold len. lia. Qed.

Lemma write_to_replicas_identity data s : same_identity s (write_to_replicas data s).2.
Proof.
  unfold write_to_replicas. cbn [replication_offset with_event with_registry].
  destruct (replication_offset s); split; reflexivity.
Qed.

Lemma write_to_replicas_bytes data s : same_bytes_processed s (write_to_replicas data s).2.
Proof.
  unfold write_to_replicas. cbn [replication_offset with_event with_registry].
  destruct (replication_offset s); reflexivity.
Qed.

Lemma offset_le_refl s : offset_le s s.
Proof. unfold offset_le. destruct (replication_offset s); [lia | exact I]. Qed.

Lemma offset_le_trans a b c : offset_le a b -> offset_le b c -> offset_le a c.
Proof.
  unfold offset_le.
  destruct (replication_offset a), (replication_offset b), (replication_offset c);
    try tauto; lia.
Qed.

Lemma write_to_replicas_offset data s : offset_le s (write_to_replicas data s).2.
Proof.
  unfold write_to_replicas, offset_le. cbn [replication_offset with_event with_registry].
  destruct (replication_offset s) eqn:Ho; cbn [snd replication_offset with_offset with_event with_registry].
  - pose proof (len_nonneg data). lia.
  - now rewrite Ho.
Qed.

(** X23 (role and replication id).  No frame, on a master or on a
    replica, changes [is_replica] or [replication_id], provided the
    other tasks that run during a sleep do not. *)
Theorem handle_keeps_identity fuel data w p s :
  (forall t s, same_identity s (suspend E t s)) ->
  same_identity s (handle E fuel data w p s).2.
Proof.
  intros HE.
  apply (keeps_handle E same_identity); try (intros; split; reflexivity); auto.
  - intros a b c [H1 H2] [H3 H4]. split; congruence.
  - apply write_to_replicas_identity.
Qed.

(** X24 (the master's byte counter).  [handle_master_command] never
    changes [bytes_processed]: only the replica loop counts bytes. *)
Theorem master_never_counts_bytes fuel data w s :
  (forall t s, same_bytes_processed s (suspend E t s)) ->
  bytes_processed (handle_master_command E fuel data w s).2 = bytes_processed s.
Proof.
  intros HE.
  apply (keeps_handle_master_command E same_bytes_processed); try (intros; reflexivity); auto.
  - intros a b c H1 H2. unfold same_bytes_processed in *. congruence.
  - apply write_to_replicas_bytes.
Qed.

(** X25 (the offset never goes back).  Whatever the frame, the
    replication offset after [handle] is at least the offset before, and
    an offset that is unset stays unset. *)
Theorem offset_never_decreases fuel data w p s :
  (forall t s, offset_le s (suspend E t s)) ->
  offset_le s (handle E fuel data w p s).2.
Proof.
  intros HE.
  apply (keeps_handle E offset_le); try (intros x s0; exact (offset_le_refl s0)).
  - exact offset_le_refl.
  - exact offset_le_trans.
  - exact write_to_replicas_offset.
  - exact HE.
Qed.

Lemma multi_go_lengths :
  forall fuel buf cs,
  Codec.multi_go fuel buf = Some cs ->
  fold_right (fun c n => c.2 + n) 0 cs = len buf.
Proof.
  induction fuel as [|fuel IH]; intros buf cs; destruct buf as [|c r]; cbn [Codec.multi_go].
  1,3: now intros [= <-].
  - discriminate.
  - destruct (Codec.decode_value (String c r)) as [[[x|xs] rest]|]; try discriminate.
    destruct (Codec.multi_go fuel rest) as [cs'|] eqn:Hgo; try discriminate.
    intros [= <-]. cbn [fold_right snd]. rewrite (IH _ _ Hgo). lia.
Qed.

Lemma replica_loop_bytes fuel p :
  (forall t s, same_bytes_processed s (suspend E t s)) ->
  forall arr s out s',
  replica_loop E fuel p arr s = (Ret out, s') ->
  bytes_processed s' = bytes_processed s + fold_right (fun c n => c.2 + n) 0 arr.
Proof.
  intros HE. induction arr as [|[c n] arr IH]; intros s out s'; cbn [replica_loop].
  - intros [= <- <-]. cbn. lia.
  - unfold bind at 1.
    destruct (get_command c s) as [[[comm a]|e|] s1] eqn:Hc; try discriminate.
    assert (s1 = s) as ->.
    { destruct c as [x|[|x l]]; unfold get_command, ret, raise in Hc; congruence. }
    cbn [fst snd]. unfold bind at 1.
    pose proof (keeps_execute E same_bytes_processed) as Hk.
    specialize (Hk ltac:(reflexivity)
                   ltac:(unfold same_bytes_processed; congruence)
                   ltac:(reflexivity) ltac:(reflexivity) ltac:(reflexivity)
                   ltac:(reflexivity) (write_to_replicas_bytes) HE
                   fuel comm a None false s).
    destruct (execute E fuel comm a None false s) as [[r|e|] s2]; try discriminate.
    unfold same_bytes_processed in Hk. cbn [snd] in Hk.
    unfold bind at 1, modify at 1. unfold bind at 1.
    destruct (replica_loop E fuel p arr _) as [[rs|e|] s3] eqn:Hl; try discriminate.
    intros [= <- <-]. rewrite (IH _ _ _ Hl). cbn [bytes_processed with_bytes_processed fold_right snd].
    rewrite Hk. lia.
Qed.

(** X26 (the replica's byte counter).  When [handle_replica] returns,
    [bytes_processed] has grown by exactly the length of the buffer it
    was given, whatever the commands in it and whether or not they were
    propagated. *)
Theorem replica_counts_every_byte fuel data p s out s' :
  (forall t s, same_bytes_processed s (suspend E t s)) ->
  handle_replica E fuel data p s = (Ret out, s') ->
  bytes_processed s' = bytes_processed s + len data.
Proof.
  intros HE. unfold handle_replica.
  destruct (Codec.multi_command_decoder data) as [arr|] eqn:Hd; [|discriminate].
  unfold bind.
  destruct (replica_loop E fuel p arr s) as [[rs|e|] s1] eqn:Hl; try discriminate.
  unfold lift. intros H. assert (s' = s1) as -> by (destruct (join rs); congruence).
  rewrite (replica_loop_bytes fuel p HE _ _ _ _ Hl).
  f_equal. exact (multi_go_lengths _ _ _ Hd).
Qed.

Lemma replica_loop_silent fuel :
  forall arr s out s',
  Forall (fun c => verb_of c.1 <> Some REPLCONF) arr ->
  replica_loop E fuel true arr s = (Ret out, s') -> out = [].
Proof.
  induction arr as [|[c n] arr IH]; intros s out s' HF; cbn [replica_loop].
  - now intros [= <- <-].
  - apply Forall_cons in HF as [Hv HF]. cbn [fst] in Hv.
    unfold bind at 1.
    destruct (get_command c s) as [[[comm a]|e|] s1] eqn:Hc; try discriminate.
    assert (Hcomm : comm <> REPLCONF).
    { destruct c as [x|[|x l]]; unfold get_command, ret, raise in Hc;
        cbn [verb_of] in Hv; try discriminate; injection Hc as <- <- <-; congruence. }
    cbn [fst snd]. unfold bind at 1.
    destruct (execute E fuel comm a None false s1) as [[r|e|] s2]; try discriminate.
    unfold bind at 1, modify at 1. unfold bind at 1.
    destruct (replica_loop E fuel true arr _) as [[rs|e|] s3] eqn:Hl; try discriminate.
    intros [= <- <-]. cbn [negb orb reply_back_commands existsb].
    destruct (String.eqb_spec comm REPLCONF) as [->|_]; [now destruct Hcomm|].
    cbn [orb]. exact (IH _ _ _ HF Hl).
Qed.

(** X27 (propagated commands are not answered).  For a propagated
    buffer without a REPLCONF command, [handle_replica] returns the
    empty string. *)
Theorem propagated_commands_get_no_reply fuel data arr s out s' :
  Codec.multi_command_decoder data = Some arr ->
  Forall (fun c => verb_of c.1 <> Some REPLCONF) arr ->
  handle_replica E fuel data true s = (Ret out, s') ->
  out = "".
Proof.
  intros Hd HF. unfold handle_replica. rewrite Hd. unfold bind.
  destruct (replica_loop E fuel true arr s) as [[rs|e|] s1] eqn:Hl; try discriminate.
  rewrite (replica_loop_silent fuel _ _ _ _ HF Hl). cbn. now intros [= <- _].
Qed.

End Invariants.

(** ** The properties above on concrete inputs *)

Lemma idle_clock_advances : clock_advances idle_env.
Proof.
  intros d s. unfold idle_env. cbn [suspend loop_clock with_loop_clock].
  rewrite Qred_correct. apply Qle_refl.
Qed.

Lemma verb_case_insensitive_witness :
  String.eqb (lower "GeT") SET = false
  /\ handle_master_command idle_env 2 (cmd ["GeT"; "a"]) None after_one_set
     = handle_master_command idle_env 2 (cmd ["get"; "a"]) None after_one_set.
Proof.
  split; [reflexivity|].
  apply (verb_case_insensitive idle_env 2 "GeT" ["a"] None after_one_set). reflexivity.
Defined.

Lemma exec_discard_without_multi_witness :
  (transaction_queue master0 = None
   /\ In (lower "Discard", "DISCARD") [(EXEC, "EXEC"); (DISCARD, "DISCARD")])
  /\ handle_master_command idle_env 1 (cmd ["Discard"]) None master0
     = (Ret (Some (Codec.encode_error ("DISCARD" ++ " without MULTI"))), master0).
Proof.
  split; [split; [reflexivity | right; left; reflexivity]|].
  apply (exec_discard_without_multi idle_env 0 "Discard" "DISCARD" [] None master0);
    [reflexivity | right; left; reflexivity].
Defined.

Lemma failed_set_is_still_forwarded_witness :
  let data := cmd ["SET"; "k"] in
  (lower "SET" = SET /\ replication_offset master0 = Some 0
   /\ transaction_queue master0 = None /\ (set ["k"] master0).1 = Exc IndexError)
  /\ handle_master_command idle_env 1 data None master0
     = (Exc IndexError,
        with_offset (Some (0 + len data))
          (with_event (EvBroadcast data)
             (with_registry (Registry.broadcast (connection_registry master0) data)
                master0))).
Proof.
  split; [repeat split|].
  apply (failed_set_is_still_forwarded idle_env 0 "SET" ["k"] None master0 0 IndexError);
    reflexivity.
Defined.

Lemma discard_drops_queue_not_forwards_witness :
  let frames := [["SET"; "a"; "1"]; ["GET"; "a"]; ["set"; "b"; "2"]] in
  (Forall (fun argv => queueable argv = true) frames
   /\ lower "DISCARD" = DISCARD
   /\ transaction_queue in_multi = Some []
   /\ replication_offset in_multi = Some 0)
  /\ let r := bind (handle_all idle_env 1 frames None)
                (fun _ => handle_master_command idle_env 1 (cmd ["DISCARD"]) None) in_multi in
     r.1 = Ret (Some (Codec.encode_simple_string "OK"))
     /\ db r.2 = db in_multi
     /\ transaction_queue r.2 = None
     /\ broadcasts (log r.2)
        = (broadcasts (log in_multi)
           ++ map cmd (List.filter (has_verb SET) frames))%list.
Proof.
  cbv zeta.
  assert (HF : Forall (fun argv => queueable argv = true)
                 [["SET"; "a"; "1"]; ["GET"; "a"]; ["set"; "b"; "2"]])
    by (repeat constructor).
  split; [repeat split; exact HF|].
  apply (discard_drops_queue_not_forwards idle_env 0 None _ "DISCARD" [] in_multi [] 0 HF);
    reflexivity.
Defined.


Lemma replconf_replies_witness :
  let s := (handle_master_command idle_env 2 (cmd ["PSYNC"; "?"; "-1"]) (Some 7%nat) master0).2 in
  (lower "ReplConf" = REPLCONF /\ transaction_queue s = None)
  /\ handle_master_command idle_env 1 (cmd ["ReplConf"; "ACK"; "31"]) (Some 7%nat) s
     = (Ret None,
        with_registry
          (Registry.update_replica_offset (connection_registry s) (Some 7%nat) 31) s).
Proof.
  cbv zeta. split; [split; reflexivity|].
  apply (replconf_replies idle_env 0 "ReplConf" ["ACK"; "31"] (Some 7%nat)); reflexivity.
Defined.

Lemma psync_registers_replica_witness :
  let data := cmd ["SET"; "a"; "1"] in
  (lower "PSYNC" = PSYNC /\ lower "SET" = SET
   /\ transaction_queue after_one_set = None
   /\ replication_offset after_one_set = Some 27)
  /\ let r := handle_master_command idle_env 1 (cmd ["PSYNC"; "?"; "-1"]) (Some 7%nat)
                after_one_set in
     let r' := handle_master_command idle_env 1 data None r.2 in
     r.1 = Ret (Some (Codec.encode_simple_string
                        ("FULLRESYNC " ++ fmt_str (replication_id after_one_set)
                         ++ " " ++ str_of_int 27)
                      ++ Codec.encode_file empty_rdb))
     /\ connection_registry r.2
        = (connection_registry after_one_set
           ++ [Registry.mkReplica (Some 7%nat) (replication_id after_one_set)
                 (Some 27) []])%list
     /\ connection_registry r'.2
        = (Registry.broadcast (connection_registry after_one_set) data
           ++ [Registry.mkReplica (Some 7%nat) (replication_id after_one_set)
                 (Some 27) [data]])%list.
Proof.
  cbv zeta. split; [repeat split|].
  apply (psync_registers_replica idle_env 0 "PSYNC" ["?"; "-1"] "SET" ["a"; "1"]
           (Some 7%nat) None after_one_set 27); reflexivity.
Defined.


Lemma incr_adds_one_witness :
  stored_int after_one_set "a" = Some 1
  /\ let r := increment ["a"] after_one_set in
     r.1 = Ret (Some (PInt (1 + 1), Some INTEGER))
     /\ stored_int r.2 "a" = Some (1 + 1).
Proof.
  split; [reflexivity|].
  apply (incr_adds_one "a" [] after_one_set 1). reflexivity.
Defined.

Lemma incr_rejects_non_integer_witness :
  (lower "INCR" = INCR /\ transaction_queue holds_text = None
   /\ db_get "a" holds_text = (Ret (Some (Db.VString "one")), (db_get "a" holds_text).2)
   /\ plain_literal "one" = true
   /\ int_of_str "one" = None)
  /\ handle_master_command idle_env 1 (cmd ["INCR"; "a"]) None holds_text
     = (Ret (Some (Codec.encode_error "value is not an integer or out of range")),
        (db_get "a" holds_text).2).
Proof.
  assert (Hg : db_get "a" holds_text
               = (Ret (Some (Db.VString "one")), (db_get "a" holds_text).2))
    by (vm_compute; reflexivity).
  split; [repeat split; exact Hg|].
  apply (incr_rejects_non_integer idle_env 0 "INCR" "a" [] None holds_text "one" _
           eq_refl eq_refl Hg); reflexivity.
Defined.

Lemma get_after_set_witness :
  set_options (wall_clock master0) ["px"; "100"] None = Ret (Some 100000)
  /\ (let s1 := (set ["k"; "v"; "px"; "100"] master0).2 in
      (get ["k"] (with_wall_clock 100000 s1)).1 = Ret (Some (PStr "v", Some BULK_STRING)))
  /\ (let s1 := (set ["k"; "v"; "px"; "100"] master0).2 in
      let r := get ["k"] (with_wall_clock 100001 s1) in
      r.1 = Ret (Some (PNone, Some BULK_STRING)) /\ Db.data (db r.2) !! "k" = None).
Proof.
  split; [reflexivity|]. split.
  - apply (get_after_set "k" "v" ["px"; "100"] [] master0 (Some 100000) 100000). reflexivity.
  - apply (get_after_set "k" "v" ["px"; "100"] [] master0 (Some 100000) 100001). reflexivity.
Defined.

Lemma xread_requires_lowercase_streams_witness :
  (lower "XREAD" = XREAD /\ transaction_queue two_entries = None
   /\ ~ In "streams" ["STREAMS"; "s"; "0-0"])
  /\ handle_master_command idle_env 1 (cmd ["XREAD"; "STREAMS"; "s"; "0-0"]) None two_entries
     = (Ret (Some (Codec.encode_error
                     "Invalid arguments. Expected streams in argument list")),
        two_entries).
Proof.
  assert (Hn : ~ In "streams" ["STREAMS"; "s"; "0-0"]).
  { intros [H|[H|[H|[]]]]; discriminate H. }
  split; [repeat split; exact Hn|].
  apply (xread_requires_lowercase_streams idle_env 0 "XREAD" _ None two_entries);
    [reflexivity | reflexivity | exact Hn].
Defined.

Lemma xread_without_block_returns_at_once_witness :
  let args := ["streams"; "s"; "9-0"] in
  index_of "block" (map lower args) = None
  /\ xread writer_env 0 (AList args) two_entries = xread idle_env 0 (AList args) two_entries
  /\ (xread writer_env 0 (AList args) two_entries).2 = two_entries
  /\ (xread writer_env 0 (AList args) two_entries).1 <> OutOfFuel.
Proof.
  cbv zeta. split; [reflexivity|].
  apply (xread_without_block_returns_at_once writer_env 0 ["streams"; "s"; "9-0"]
           two_entries). reflexivity.
Defined.

Lemma xread_block_zero_never_times_out_witness :
  (int_of_str (lower "0") = Some 0
   /\ List.length ["s"] = List.length ["9-0"]
   /\ resolve_starts (db master0) (map lower ["s"]) 0 (map lower ["9-0"]) = Ret ["(9-0"]
   /\ no_data (map lower ["s"]) ["(9-0"] master0
   /\ (forall d s, no_data (map lower ["s"]) ["(9-0"] s ->
                   no_data (map lower ["s"]) ["(9-0"] (suspend idle_env d s)))
  /\ (xread idle_env 50 (AList ("block" :: "0" :: "streams" :: ["s"] ++ ["9-0"])%list)
        master0).1 = OutOfFuel.
Proof.
  assert (HE : forall d s, no_data (map lower ["s"]) ["(9-0"] s ->
                           no_data (map lower ["s"]) ["(9-0"] (suspend idle_env d s))
    by (intros d s H; exact H).
  split; [repeat split; exact HE|].
  apply (xread_block_zero_never_times_out idle_env 50 "0" ["s"] ["9-0"] ["(9-0"] master0);
    [reflexivity | reflexivity | reflexivity | reflexivity | exact HE].
Defined.

Lemma xread_block_returns_witness :
  (clock_advances idle_env
   /\ int_of_str (lower "1500") = Some 1500 /\ 0 < 1500
   /\ List.length ["s"] = List.length ["9-0"]
   /\ 5 * (1500 / 1000) < Z.of_nat 6)
  /\ (xread idle_env 6 (AList ("block" :: "1500" :: "streams" :: ["s"] ++ ["9-0"])%list)
        master0).1 <> OutOfFuel.
Proof.
  split; [repeat split; try reflexivity|].
  - exact idle_clock_advances.
  - apply (xread_block_returns idle_env 6 "1500" 1500 ["s"] ["9-0"] master0);
      [exact idle_clock_advances | reflexivity | reflexivity | reflexivity | reflexivity].
Defined.

Lemma xread_rejects_odd_tail_witness :
  let args := ["streams"; "s"; "t"; "0-0"] in
  (In "streams" args
   /\ index_of "streams" (map lower args) = Some 0%nat
   /\ index_of "block" (map lower args) = None
   /\ Nat.odd (List.length args - 1) = true)
  /\ xread idle_env 0 (AList args) master0
     = (Exc (RedisException
          "The number of stream keys must match the number of start IDs."), master0).
Proof.
  cbv zeta. split; [repeat split; left; reflexivity|].
  apply (xread_rejects_odd_tail idle_env 0 _ master0 0);
    [left; reflexivity | reflexivity | reflexivity | reflexivity].
Defined.

Lemma xread_rejects_negative_block_witness :
  let args := ["BLOCK"; "-5"; "streams"; "s"; "0-0"] in
  (In "streams" args
   /\ index_of "streams" (map lower args) = Some 2%nat
   /\ index_of "block" (map lower args) = Some 0%nat
   /\ map lower args !! 1%nat = Some "-5"
   /\ int_of_str "-5" = Some (-5) /\ -5 < 0)
  /\ xread idle_env 0 (AList args) master0
     = (Exc (RedisException "Block time must be a non-negative integer."), master0).
Proof.
  cbv zeta.
  assert (Hin : In "streams" ["BLOCK"; "-5"; "streams"; "s"; "0-0"])
    by (right; right; left; reflexivity).
  split; [repeat split; exact Hin|].
  apply (xread_rejects_negative_block idle_env 0 _ master0 2 0 "-5" (-5));
    [exact Hin | reflexivity | reflexivity | reflexivity | reflexivity | reflexivity].
Defined.

Lemma wait_with_zero_offset_witness :
  let s := (handle_master_command idle_env 2 (cmd ["PSYNC"; "?"; "-1"]) (Some 7%nat) master0).2 in
  (lower "WAIT" = WAIT /\ transaction_queue s = None /\ replication_offset s = Some 0
   /\ int_of_str "3" = Some 3 /\ int_of_str "500" = Some 500)
  /\ handle_master_command idle_env 1 (cmd ["WAIT"; "3"; "500"]) None s
     = (Ret (Some (Codec.encode_integer (Z.of_nat (List.length (connection_registry s))))), s).
Proof.
  cbv zeta. split; [repeat split|].
  apply (wait_with_zero_offset idle_env 0 "WAIT" "3" "500" [] None _ 3 500); reflexivity.
Defined.

Lemma wait_counts_acks_of_entry_offset_witness :
  (clock_advances idle_env
   /\ replication_offset after_one_set = Some 27 /\ 27 <> 0
   /\ int_of_str "1" = Some 1 /\ int_of_str "250" = Some 250
   /\ 250 <= 100 * Z.of_nat 3)
  /\ let r := wait idle_env 3 ["1"; "250"] after_one_set in
     r.1 = Ret (Some (PInt (Registry.check_replica_sync (connection_registry r.2) 27),
                      Some INTEGER)).
Proof.
  assert (H1 : 27 <> 0) by discriminate.
  assert (H2 : 250 <= 100 * Z.of_nat 3) by (vm_compute; discriminate).
  split; [repeat split; try assumption; exact idle_clock_advances|].
  apply (wait_counts_acks_of_entry_offset idle_env 3 "1" "250" [] after_one_set 1 250 27);
    [exact idle_clock_advances | reflexivity | exact H1 | reflexivity | reflexivity | exact H2].
Defined.

Lemma idle_suspend_identity t s : same_identity s (suspend idle_env t s).
Proof. split; reflexivity. Qed.

Lemma idle_suspend_bytes t s : same_bytes_processed s (suspend idle_env t s).
Proof. reflexivity. Qed.

Lemma replica_suspend_bytes t s : same_bytes_processed s (suspend replica_env t s).
Proof. reflexivity. Qed.

Lemma idle_suspend_offset t s : offset_le s (suspend idle_env t s).
Proof.
  unfold offset_le, idle_env. cbn [suspend replication_offset with_loop_clock].
  destruct (replication_offset s); [lia | exact I].
Qed.

Lemma handle_keeps_identity_witness :
  (forall t s, same_identity s (suspend idle_env t s))
  /\ same_identity master0
       (handle idle_env 2 (cmd ["PSYNC"; "?"; "-1"]) (Some 7%nat) false master0).2.
Proof.
  split; [exact idle_suspend_identity|].
  apply (handle_keeps_identity idle_env 2 _ (Some 7%nat) false master0).
  exact idle_suspend_identity.
Defined.

Lemma master_never_counts_bytes_witness :
  (forall t s, same_bytes_processed s (suspend idle_env t s))
  /\ bytes_processed
       (handle_master_command idle_env 2 (cmd ["SET"; "a"; "1"]) None master0).2
     = bytes_processed master0.
Proof.
  split; [exact idle_suspend_bytes|].
  apply (master_never_counts_bytes idle_env 2 _ None master0). exact idle_suspend_bytes.
Defined.

Lemma offset_never_decreases_witness :
  (forall t s, offset_le s (suspend idle_env t s))
  /\ offset_le after_one_set
       (handle idle_env 3 (cmd ["WAIT"; "1"; "100"]) None false after_one_set).2.
Proof.
  split; [exact idle_suspend_offset|].
  apply (offset_never_decreases idle_env 3 _ None false after_one_set).
  exact idle_suspend_offset.
Defined.

Lemma replica_counts_every_byte_witness :
  let data := (cmd ["SET"; "mango"; "blueberry"] ++ cmd ["INCR"; "n"]
               ++ cmd ["REPLCONF"; "GETACK"; "*"])%string in
  let r := handle_replica replica_env 2 data true replica0 in
  ((forall t s, same_bytes_processed s (suspend replica_env t s))
   /\ r = (Ret (cmd ["REPLCONF"; "ACK"; "60"]), r.2))
  /\ bytes_processed r.2 = bytes_processed replica0 + len data.
Proof.
  cbv zeta.
  assert (Hr : forall data,
            data = (cmd ["SET"; "mango"; "blueberry"] ++ cmd ["INCR"; "n"]
                    ++ cmd ["REPLCONF"; "GETACK"; "*"])%string ->
            handle_replica replica_env 2 data true replica0
            = (Ret (cmd ["REPLCONF"; "ACK"; "60"]),
               (handle_replica replica_env 2 data true replica0).2))
    by (intros data ->; vm_compute; reflexivity).
  split; [split; [exact replica_suspend_bytes | exact (Hr _ eq_refl)]|].
  exact (replica_counts_every_byte replica_env 2 _ true replica0 _ _
           replica_suspend_bytes (Hr _ eq_refl)).
Defined.

Lemma propagated_commands_get_no_reply_witness :
  let data := (cmd ["SET"; "mango"; "blueberry"] ++ cmd ["INCR"; "n"])%string in
  let arr := [(Codec.DList ["SET"; "mango"; "blueberry"], 39);
              (Codec.DList ["INCR"; "n"], 21)] in
  let r := handle_replica replica_env 2 data true replica0 in
  (Codec.multi_command_decoder data = Some arr
   /\ Forall (fun c => verb_of c.1 <> Some REPLCONF) arr
   /\ r = (Ret "", r.2))
  /\ "" = "".
Proof.
  cbv zeta.
  assert (HF : Forall (fun c : Codec.decoded * Z => verb_of c.1 <> Some REPLCONF)
                 [(Codec.DList ["SET"; "mango"; "blueberry"], 39);
                  (Codec.DList ["INCR"; "n"], 21)])
    by (repeat constructor; discriminate).
  assert (Hd : Codec.multi_command_decoder
                 (cmd ["SET"; "mango"; "blueberry"] ++ cmd ["INCR"; "n"])
               = Some [(Codec.DList ["SET"; "mango"; "blueberry"], 39);
                       (Codec.DList ["INCR"; "n"], 21)])
    by (vm_compute; reflexivity).
  assert (Hr : handle_replica replica_env 2
                 (cmd ["SET"; "mango"; "blueberry"] ++ cmd ["INCR"; "n"]) true replica0
               = (Ret "", (handle_replica replica_env 2
                  (cmd ["SET"; "mango"; "blueberry"] ++ cmd ["INCR"; "n"]) true replica0).2))
    by (vm_compute; reflexivity).
  split; [repeat split; assumption|].
  exact (propagated_commands_get_no_reply replica_env 2 _ _ replica0 _ _ Hd HF Hr).
Defined.

Lemma missing_argument_escapes_witness :
  (In (lower "Get") needs_argument /\ transaction_queue master0 = None)
  /\ handle_master_command idle_env 1 (cmd ["Get"]) None master0 = (Exc IndexError, master0).
Proof.
  assert (Hin : In (lower "Get") needs_argument) by (right; left; reflexivity).
  split; [split; [exact Hin | reflexivity]|].
  apply (missing_argument_escapes idle_env 0 "Get" None master0); [exact Hin | reflexivity].
Defined.
